(** * Sync core of the code-quality admin console

    A shallow embedding of the synchronisation core of the admin UI:

    - [src/types/rule.ts], [src/types/tag.ts], [src/types/api.ts]: the data
      model (rules, tag data, snapshots, wire formats);
    - [src/api/client.ts], [src/api/dataApi.ts]: the remote client with its
      response interceptor and the 409 special case of [pushData];
    - [src/storage/idbStorage.ts]: the IndexedDB layer, two object stores
      keyed by slot names;
    - [src/stores/dataStore.ts]: the Zustand store ([pull], [hydrate], the
      rule CRUD actions and [persistCurrent]).

    Conventions of the embedding.

    - A JavaScript [number] that carries a version, a count or a level is a
      [Z]; [string | null] and optional fields are [option].
    - An [async] function is run to completion: it takes the world before
      the call and returns how the promise settled ([Returns] or [Throws])
      together with the world after it.  The fire-and-forget
      [persistCurrent().catch(console.error)] of the CRUD actions is run
      right after the synchronous [set], on the state it reads at that
      moment.
    - What the environment decides is an explicit argument: how the HTTP
      request settled ([Transport]), which IndexedDB requests fail
      ([Faults]) and what [new Date().toISOString()] returns ([now]). *)

From stdpp Require Import gmap strings list fin_maps pretty.
From Stdlib Require Import ZArith Ascii.

Local Open Scope Z_scope.

(* ===================================================================== *)
(** * src/types/rule.ts                                                   *)
(* ===================================================================== *)

Inductive RuleCategory :=
| resource_management | security | exception_handling | performance
| architecture | code_style | naming_convention | documentation | general.

Inductive RuleSeverity := CRITICAL | HIGH | MEDIUM | LOW.

Inductive RuleCheckType :=
| pure_regex | llm_with_regex | llm_contextual | llm_with_ast.

Record AntiPattern := {
  ap_pattern : string;
  ap_flags : string;
  ap_description : string;
}.

Record GoodPattern := {
  gp_pattern : string;
  gp_flags : string;
  gp_description : string;
}.

Inductive RuleTableType := textbox | table.

Record RuleTable := {
  rt_type : RuleTableType;
  rt_content : string;
  rt_markdown : string;
  rt_rows : Z;
  rt_cols : Z;
}.

Record RuleMetadata := {
  rm_createdAt : string;
  rm_source : string;
  rm_sourceFile : string;
  rm_version : string;
}.

(** [interface Rule]: the unit of inspection, identified by [ruleId]. *)
Record Rule := {
  ruleId : string;
  sectionNumber : string;
  title : string;
  level : Z;
  category : RuleCategory;
  severity : RuleSeverity;
  description : string;
  message : string;
  suggestion : string;
  keywords : list string;
  source : string;
  sourceFile : string;
  sourcePrefix : string;
  problematicCode : option string;
  fixedCode : option string;
  hasTables : bool;
  hasImages : bool;
  tables : list RuleTable;
  metadata : RuleMetadata;
  checkType : RuleCheckType;
  checkTypeReason : string;
  tagCondition : string;
  requiredTags : list string;
  excludeTags : list string;
  antiPatterns : list AntiPattern;
  goodPatterns : list GoodPattern;
  isActive : bool;
}.

(** [Partial<Rule>], the type of the [updates] argument of the store's
    [updateRule]: every property of [Rule] may be present or absent.
    [None] is an absent property, [Some v] a property present with value
    [v] (for the two nullable fields the value is itself an [option]). *)
Record PartialRule := {
  p_ruleId : option string;
  p_sectionNumber : option string;
  p_title : option string;
  p_level : option Z;
  p_category : option RuleCategory;
  p_severity : option RuleSeverity;
  p_description : option string;
  p_message : option string;
  p_suggestion : option string;
  p_keywords : option (list string);
  p_source : option string;
  p_sourceFile : option string;
  p_sourcePrefix : option string;
  p_problematicCode : option (option string);
  p_fixedCode : option (option string);
  p_hasTables : option bool;
  p_hasImages : option bool;
  p_tables : option (list RuleTable);
  p_metadata : option RuleMetadata;
  p_checkType : option RuleCheckType;
  p_checkTypeReason : option string;
  p_tagCondition : option string;
  p_requiredTags : option (list string);
  p_excludeTags : option (list string);
  p_antiPatterns : option (list AntiPattern);
  p_goodPatterns : option (list GoodPattern);
  p_isActive : option bool;
}.

(** The empty patch [{}]. *)
Definition empty_patch : PartialRule :=
  {| p_ruleId := None; p_sectionNumber := None; p_title := None;
     p_level := None; p_category := None; p_severity := None;
     p_description := None; p_message := None; p_suggestion := None;
     p_keywords := None; p_source := None; p_sourceFile := None;
     p_sourcePrefix := None; p_problematicCode := None; p_fixedCode := None;
     p_hasTables := None; p_hasImages := None; p_tables := None;
     p_metadata := None; p_checkType := None; p_checkTypeReason := None;
     p_tagCondition := None; p_requiredTags := None; p_excludeTags := None;
     p_antiPatterns := None; p_goodPatterns := None; p_isActive := None |}.

(** [type UpdateRuleInput = Partial<Omit<Rule, 'ruleId'>>]: the patches
    that carry no [ruleId] property. *)
Definition UpdateRuleInput (u : PartialRule) : Prop := p_ruleId u = None.

(** One property of the object spread [{ ...r, ...updates }]: the value of
    [updates] when the property is present there, the one of [r] otherwise. *)
Definition spread_field {A} (base : A) (patch : option A) : A :=
  match patch with
  | Some v => v
  | None => base
  end.

(** [{ ...r, ...updates }] *)
Definition spread_rule (r : Rule) (u : PartialRule) : Rule :=
  {| ruleId := spread_field (ruleId r) (p_ruleId u);
     sectionNumber := spread_field (sectionNumber r) (p_sectionNumber u);
     title := spread_field (title r) (p_title u);
     level := spread_field (level r) (p_level u);
     category := spread_field (category r) (p_category u);
     severity := spread_field (severity r) (p_severity u);
     description := spread_field (description r) (p_description u);
     message := spread_field (message r) (p_message u);
     suggestion := spread_field (suggestion r) (p_suggestion u);
     keywords := spread_field (keywords r) (p_keywords u);
     source := spread_field (source r) (p_source u);
     sourceFile := spread_field (sourceFile r) (p_sourceFile u);
     sourcePrefix := spread_field (sourcePrefix r) (p_sourcePrefix u);
     problematicCode := spread_field (problematicCode r) (p_problematicCode u);
     fixedCode := spread_field (fixedCode r) (p_fixedCode u);
     hasTables := spread_field (hasTables r) (p_hasTables u);
     hasImages := spread_field (hasImages r) (p_hasImages u);
     tables := spread_field (tables r) (p_tables u);
     metadata := spread_field (metadata r) (p_metadata u);
     checkType := spread_field (checkType r) (p_checkType u);
     checkTypeReason := spread_field (checkTypeReason r) (p_checkTypeReason u);
     tagCondition := spread_field (tagCondition r) (p_tagCondition u);
     requiredTags := spread_field (requiredTags r) (p_requiredTags u);
     excludeTags := spread_field (excludeTags r) (p_excludeTags u);
     antiPatterns := spread_field (antiPatterns r) (p_antiPatterns u);
     goodPatterns := spread_field (goodPatterns r) (p_goodPatterns u);
     isActive := spread_field (isActive r) (p_isActive u) |}.

(* ===================================================================== *)
(** * src/types/tag.ts                                                    *)
(* ===================================================================== *)

Inductive TagExtractionMethod := em_regex | em_ast | em_llm.

Inductive TagTier := tier_1 | tier_2.

Inductive TagMatchType := match_any | match_all | match_none.

Inductive AstOperator := op_ge | op_gt | op_le | op_lt | op_eq.

(** [type TagDetection], a union discriminated by its [type] property. *)
Inductive TagDetection :=
| RegexDetection (patterns : list string) (matchType : TagMatchType)
    (caseSensitive excludeInComments : option bool)
| AstDetection (nodeType metric : option string) (threshold : option Z)
    (operator : option AstOperator) (condition : option string)
| AstContextDetection (context : string + list string)
    (patterns : list string)
| LlmDetection (criteria : string) (triggerTags : option (list string)).

Record TagDefinition := {
  tg_category : string;
  tg_description : string;
  tg_extractionMethod : TagExtractionMethod;
  tg_tier : TagTier;
  tg_detection : TagDetection;
  tg_notes : option string;
}.

Record CompoundTag := {
  ct_name : option string;
  ct_description : string;
  ct_expression : option string;
  ct_requires : option (list string);
  ct_excludes : option (list string);
  ct_severity : option string;
}.

Record TagDataMetadata := {
  tm_version : string;
  tm_description : option string;
  tm_lastUpdated : string;
  tm_totalTags : Z;
}.

(** [interface TagData]; the three [Record<string, _>] are finite maps. *)
Record TagData := {
  _metadata : TagDataMetadata;
  tagCategories : gmap string string;
  tagDefinitions : gmap string TagDefinition;
  compoundTags : gmap string CompoundTag;
}.

(** [EMPTY_TAG_DATA]; [loadedAt] is the [new Date().toISOString()] taken
    when the module is evaluated. *)
Definition EMPTY_TAG_DATA (loadedAt : string) : TagData :=
  {| _metadata := {| tm_version := "1.0.0"; tm_description := Some EmptyString;
                     tm_lastUpdated := loadedAt; tm_totalTags := 0 |};
     tagCategories := ∅;
     tagDefinitions := ∅;
     compoundTags := ∅ |}.

(* ===================================================================== *)
(** * src/types/api.ts                                                    *)
(* ===================================================================== *)

Inductive ApiErrorCode :=
| INVALID_DATA | VERSION_CONFLICT | NOT_FOUND | INTERNAL_ERROR.

(** The wire spelling of an error code. *)
Definition code_string (c : ApiErrorCode) : string :=
  match c with
  | INVALID_DATA => "INVALID_DATA"
  | VERSION_CONFLICT => "VERSION_CONFLICT"
  | NOT_FOUND => "NOT_FOUND"
  | INTERNAL_ERROR => "INTERNAL_ERROR"
  end.

(** [interface ApiErrorResponse] ([success] is the constant [false]). *)
Record ApiErrorResponse := {
  ae_error : ApiErrorCode;
  ae_message : string;
}.

Record RuleItems := {
  count : Z;
  items : list Rule;
}.

Record PullMetadata := {
  ruleCount : Z;
  tagCount : Z;
  compoundTagCount : Z;
}.

(** [interface PullResponse] *)
Record PullResponse := {
  version : Z;
  pulledAt : string;
  pr_rules : RuleItems;
  pr_tags : TagData;
  pr_metadata : PullMetadata;
}.

(** [interface PushRequest] *)
Record PushRequest := {
  rq_baseVersion : option Z;
  rq_rules : list Rule;
  rq_tags : TagData;
  rq_force : bool;
}.

Record PushRuleResult := {
  total : Z;
  success : Z;
  failed : Z;
}.

(** [interface PushSuccessResponse] ([success: true]) *)
Record PushSuccessResponse := {
  newVersion : Z;
  pushedAt : string;
  backupPath : string;
  ps_rules : PushRuleResult;
  ps_tags_total : Z;
}.

(** [interface PushConflictResponse]
    ([success: false], [error: 'VERSION_CONFLICT']) *)
Record PushConflictResponse := {
  pc_message : string;
  pc_baseVersion : Z;
  pc_currentVersion : Z;
}.

(** [type PushResponse = PushSuccessResponse | PushConflictResponse] *)
Inductive PushResponse :=
| PushSuccess (r : PushSuccessResponse)
| PushConflict (r : PushConflictResponse).

(** A JSON body as the client sees it at run time.  The interceptor reads
    the body of a failed request as an [ApiErrorResponse], [pushData] reads
    the same body as a [PushResponse]; both are unchecked casts. *)
Inductive ResponseBody :=
| ErrorBody (r : ApiErrorResponse)
| PushBody (r : PushResponse).

(** [data.success] *)
Definition body_success (b : ResponseBody) : bool :=
  match b with
  | PushBody (PushSuccess _) => true
  | _ => false
  end.

(** [data.error] ([undefined] is [None]) *)
Definition body_error (b : ResponseBody) : option string :=
  match b with
  | ErrorBody r => Some (code_string (ae_error r))
  | PushBody (PushConflict _) => Some "VERSION_CONFLICT"
  | PushBody (PushSuccess _) => None
  end.

(** [data.message] ([undefined] is [None]) *)
Definition body_message (b : ResponseBody) : option string :=
  match b with
  | ErrorBody r => Some (ae_message r)
  | PushBody (PushConflict r) => Some (pc_message r)
  | PushBody (PushSuccess _) => None
  end.

(** [res.success === false && res.error === 'VERSION_CONFLICT'] *)
Definition isPushConflict (res : ResponseBody) : bool :=
  negb (body_success res)
  && bool_decide (body_error res = Some "VERSION_CONFLICT").

(** [res.success === true] *)
Definition isPushSuccess (res : ResponseBody) : bool := body_success res.

(** [interface LocalSnapshot] *)
Record LocalSnapshot := {
  savedAt : string;
  snap_baseVersion : Z;
  snap_rules : list Rule;
  snap_tags : TagData;
}.

(* ===================================================================== *)
(** * src/api/client.ts                                                   *)
(* ===================================================================== *)

(** [error.response] of an [AxiosError]: the status line and the body, when
    the server sent one. *)
Record AxiosResponse := {
  resp_status : Z;
  resp_data : option ResponseBody;
}.

(** An [AxiosError]; [ax_response] is absent when no response arrived
    (network failure, timeout). *)
Record AxiosError := {
  ax_message : option string;
  ax_response : option AxiosResponse;
}.

(** How a request made through [client] settles before the response
    interceptor runs. *)
Inductive Transport (A : Type) :=
| Resolved (data : A)
| Rejected (e : AxiosError).
Arguments Resolved {A} data.
Arguments Rejected {A} e.

(** The error built by the response interceptor:
    [new Error(message)] with [status], [code] and [originalError]. *)
Record NormalizedError := {
  ne_message : string;
  ne_status : option Z;
  ne_code : option string;
  ne_originalError : AxiosError;
}.

(** A thrown value (a promise rejection reason). *)
Inductive Thrown :=
| ApiFailure (e : NormalizedError)
| StorageFailure (msg : string)
| NonError.

(** How a call settles. *)
Inductive Completion (A : Type) :=
| Returns (a : A)
| Throws (e : Thrown).
Arguments Returns {A} a.
Arguments Throws {A} e.

(** [error.response?.status] *)
Definition error_status (error : AxiosError) : option Z :=
  resp_status <$> ax_response error.

(** [error.response?.data] *)
Definition error_data (error : AxiosError) : option ResponseBody :=
  ax_response error ≫= resp_data.

(** The fallback chain of the interceptor, after [serverMessage ??]. *)
Definition fallback_message (status : option Z) (error : AxiosError) : string :=
  if bool_decide (status = Some 409) then "버전 충돌이 발생했습니다."
  else if bool_decide (status = Some 400) then "잘못된 요청입니다."
  else if bool_decide (status = Some 404) then "요청한 리소스를 찾을 수 없습니다."
  else if bool_decide (status = Some 500) then "서버 내부 오류가 발생했습니다."
  else default "알 수 없는 오류가 발생했습니다." (ax_message error).

(** The rejection handler of [client.interceptors.response]. *)
Definition normalize (error : AxiosError) : NormalizedError :=
  let status := error_status error in
  let serverMessage := error_data error ≫= body_message in
  let message := default (fallback_message status error) serverMessage in
  {| ne_message := message;
     ne_status := status;
     ne_code := error_data error ≫= body_error;
     ne_originalError := error |}.

(** [await client.get(...)] / [await client.post(...)]: a 2xx response goes
    through unchanged, anything else is rejected with the normalised
    error. *)
Definition request {A} (net : Transport A) : Completion A :=
  match net with
  | Resolved data => Returns data
  | Rejected error => Throws (ApiFailure (normalize error))
  end.

(* ===================================================================== *)
(** * src/api/dataApi.ts                                                  *)
(* ===================================================================== *)

(** [pullData]: [GET /api/data/pull], returns [response.data]. *)
Definition pullData (net : Transport PullResponse) : Completion PullResponse :=
  request net.

(** [err.status === 409 && err.originalError?.response?.data], as the
    value the conjunction selects: the body to return, if any. *)
Definition conflict_body (error : Thrown) : option ResponseBody :=
  match error with
  | ApiFailure err =>
      if bool_decide (ne_status err = Some 409)
      then error_data (ne_originalError err)
      else None
  | _ => None
  end.

(** [pushData]: [POST /api/data/push].  The payload only travels to the
    server; how the request settles is [net]. *)
Definition pushData (payload : PushRequest) (net : Transport PushResponse)
  : Completion ResponseBody :=
  match request net with
  | Returns data => Returns (PushBody data)
  | Throws error =>
      match conflict_body error with
      | Some body => Returns body
      | None => Throws error
      end
  end.

(* ===================================================================== *)
(** * src/storage/idbStorage.ts                                           *)
(* ===================================================================== *)

(** [type SnapshotSlot] *)
Inductive SnapshotSlot := snapshot_origin | snapshot_current | snapshot_lastPush.

(** [type MetaSlot] *)
Inductive MetaSlot := meta_lastPullAt | meta_lastPushAt | meta_baseVersion.

(** The key under which a slot is stored. *)
Definition snapshot_key (slot : SnapshotSlot) : string :=
  match slot with
  | snapshot_origin => "snapshot:origin"
  | snapshot_current => "snapshot:current"
  | snapshot_lastPush => "snapshot:lastPush"
  end.

Definition meta_key (slot : MetaSlot) : string :=
  match slot with
  | meta_lastPullAt => "meta:lastPullAt"
  | meta_lastPushAt => "meta:lastPushAt"
  | meta_baseVersion => "meta:baseVersion"
  end.

(** A value of the ['meta'] object store: [string | number]. *)
Inductive MetaValue :=
| MetaString (s : string)
| MetaNumber (n : Z).

(** The database ['code-quality-admin']: its two object stores. *)
Record IDB := {
  snapshots : gmap string LocalSnapshot;
  meta : gmap string MetaValue;
}.

(** The database before anything was stored. *)
Definition empty_db : IDB := {| snapshots := ∅; meta := ∅ |}.

(** Which IndexedDB requests fail during one call, per key: [Some msg] is
    the message of the exception ([getDB] or the request itself throwing),
    [None] lets the request through. *)
Record Faults := {
  put_fault : string → option string;
  get_fault : string → option string;
  clear_fault : option string;
}.

(** Nothing fails. *)
Definition no_faults : Faults :=
  {| put_fault := λ _, None; get_fault := λ _, None; clear_fault := None |}.

(** No fault on any of the listed keys. *)
Definition puts_land (f : Faults) (keys : list string) : Prop :=
  Forall (λ k, put_fault f k = None) keys.

(** [saveSnapshot]: [db.put('snapshots', snapshot, slot)]; a failure is
    logged and rethrown. *)
Definition saveSnapshot (f : Faults) (slot : SnapshotSlot)
    (snapshot : LocalSnapshot) (db : IDB) : Completion unit * IDB :=
  match put_fault f (snapshot_key slot) with
  | Some msg => (Throws (StorageFailure msg), db)
  | None =>
      (Returns (),
       {| snapshots := <[snapshot_key slot := snapshot]> (snapshots db);
          meta := meta db |})
  end.

(** [loadSnapshot]: [db.get('snapshots', slot) ?? null]; a failure is logged
    and read as an empty slot. *)
Definition loadSnapshot (f : Faults) (slot : SnapshotSlot) (db : IDB)
  : option LocalSnapshot :=
  match get_fault f (snapshot_key slot) with
  | Some _ => None
  | None => snapshots db !! snapshot_key slot
  end.

(** [saveMeta]: [db.put('meta', value, slot)]; a failure is logged and
    rethrown. *)
Definition saveMeta (f : Faults) (slot : MetaSlot) (value : MetaValue)
    (db : IDB) : Completion unit * IDB :=
  match put_fault f (meta_key slot) with
  | Some msg => (Throws (StorageFailure msg), db)
  | None =>
      (Returns (),
       {| snapshots := snapshots db;
          meta := <[meta_key slot := value]> (meta db) |})
  end.

(** [loadMeta]: [db.get('meta', slot) ?? null]; a failure is logged and read
    as an empty slot. *)
Definition loadMeta (f : Faults) (slot : MetaSlot) (db : IDB)
  : option MetaValue :=
  match get_fault f (meta_key slot) with
  | Some _ => None
  | None => meta db !! meta_key slot
  end.

(** The cast [value as MetaValueMap[K]] of [loadMeta] at the two string
    slots and at the number slot.  [saveMeta] is typed by the same map, so
    a slot only ever holds a value of its own type; a value of the other
    type reads as absent. *)
Definition as_string (v : option MetaValue) : option string :=
  match v with
  | Some (MetaString s) => Some s
  | _ => None
  end.

Definition as_number (v : option MetaValue) : option Z :=
  match v with
  | Some (MetaNumber n) => Some n
  | _ => None
  end.

(** [clearAll]: one transaction clearing both stores; it lands as a whole
    or not at all. *)
Definition clearAll (f : Faults) (db : IDB) : Completion unit * IDB :=
  match clear_fault f with
  | Some msg => (Throws (StorageFailure msg), db)
  | None => (Returns (), empty_db)
  end.

(** [Promise.all] over calls that were all started: it resolves when each
    of them resolved and rejects with a rejection reason otherwise (here
    the first one in array order). *)
Fixpoint promise_all (rs : list (Completion unit)) : Completion unit :=
  match rs with
  | [] => Returns ()
  | Returns _ :: rs' => promise_all rs'
  | Throws e :: _ => Throws e
  end.

(** [saveAfterPull]: the four writes are all issued, each lands or fails on
    its own. *)
Definition saveAfterPull (f : Faults) (snapshot : LocalSnapshot) (db : IDB)
  : Completion unit * IDB :=
  let '(r1, db1) := saveSnapshot f snapshot_origin snapshot db in
  let '(r2, db2) := saveSnapshot f snapshot_current snapshot db1 in
  let '(r3, db3) :=
    saveMeta f meta_lastPullAt (MetaString (savedAt snapshot)) db2 in
  let '(r4, db4) :=
    saveMeta f meta_baseVersion (MetaNumber (snap_baseVersion snapshot)) db3 in
  (promise_all [r1; r2; r3; r4], db4).

(** [saveAfterPush] *)
Definition saveAfterPush (f : Faults) (snapshot : LocalSnapshot)
    (pushedAt : string) (newVersion : Z) (db : IDB) : Completion unit * IDB :=
  let updatedSnapshot :=
    {| savedAt := pushedAt;
       snap_baseVersion := newVersion;
       snap_rules := snap_rules snapshot;
       snap_tags := snap_tags snapshot |} in
  let '(r1, db1) := saveSnapshot f snapshot_lastPush updatedSnapshot db in
  let '(r2, db2) := saveSnapshot f snapshot_current updatedSnapshot db1 in
  let '(r3, db3) := saveMeta f meta_lastPushAt (MetaString pushedAt) db2 in
  let '(r4, db4) := saveMeta f meta_baseVersion (MetaNumber newVersion) db3 in
  (promise_all [r1; r2; r3; r4], db4).

(* ===================================================================== *)
(** * src/stores/dataStore.ts                                             *)
(* ===================================================================== *)

(** [interface DataState] *)
Record DataState := {
  rules : list Rule;
  tags : TagData;
  baseVersion : option Z;
  lastPullAt : option string;
  lastPushAt : option string;
  isLoading : bool;
  isHydrated : bool;
  error : option string;
}.

(** [initialState] *)
Definition initialState (loadedAt : string) : DataState :=
  {| rules := [];
     tags := EMPTY_TAG_DATA loadedAt;
     baseVersion := None;
     lastPullAt := None;
     lastPushAt := None;
     isLoading := false;
     isHydrated := false;
     error := None |}.

(** The world an action runs in: the in-memory state and the database. *)
Definition World : Type := DataState * IDB.

(** [error instanceof Error] *)
Definition instanceof_Error (e : Thrown) : bool :=
  match e with
  | ApiFailure _ | StorageFailure _ => true
  | NonError => false
  end.

(** [error.message] of a thrown [Error] *)
Definition thrown_message (e : Thrown) : string :=
  match e with
  | ApiFailure err => ne_message err
  | StorageFailure msg => msg
  | NonError => EmptyString
  end.

(** The message computed in the [catch] of [pull]. *)
Definition pull_error_message (e : Thrown) : string :=
  if instanceof_Error e then thrown_message e
  else "Pull 중 알 수 없는 오류가 발생했습니다.".

(** The [catch] block of [pull]:
    [set({ isLoading: false, error: message }); throw error]. *)
Definition pull_catch (e : Thrown) (st : DataState) (db : IDB)
  : Completion unit * World :=
  (Throws e,
   ({| rules := rules st; tags := tags st; baseVersion := baseVersion st;
       lastPullAt := lastPullAt st; lastPushAt := lastPushAt st;
       isLoading := false; isHydrated := isHydrated st;
       error := Some (pull_error_message e) |}, db)).

(** [pull] *)
Definition pull (net : Transport PullResponse) (f : Faults) (w : World)
  : Completion unit * World :=
  let '(st, db) := w in
  (* set({ isLoading: true, error: null }) *)
  let st1 :=
    {| rules := rules st; tags := tags st; baseVersion := baseVersion st;
       lastPullAt := lastPullAt st; lastPushAt := lastPushAt st;
       isLoading := true; isHydrated := isHydrated st; error := None |} in
  match pullData net with
  | Throws e => pull_catch e st1 db
  | Returns pullRes =>
      (* 1. store update *)
      let st2 :=
        {| rules := items (pr_rules pullRes);
           tags := pr_tags pullRes;
           baseVersion := Some (version pullRes);
           lastPullAt := Some (pulledAt pullRes);
           lastPushAt := lastPushAt st1;
           isLoading := false; isHydrated := isHydrated st1;
           error := None |} in
      (* 2. IndexedDB: origin + current + meta *)
      let snapshot :=
        {| savedAt := pulledAt pullRes;
           snap_baseVersion := version pullRes;
           snap_rules := items (pr_rules pullRes);
           snap_tags := pr_tags pullRes |} in
      match saveAfterPull f snapshot db with
      | (Returns _, db') => (Returns (), (st2, db'))
      | (Throws e, db') => pull_catch e st2 db'
      end
  end.

(** [a ?? b] *)
Definition nullish {A} (a b : option A) : option A :=
  match a with
  | Some x => Some x
  | None => b
  end.

(** [hydrate].  The four loads swallow their own failures, so the [catch]
    of [hydrate] has nothing to catch and the call always resolves; it
    writes nothing to the database. *)
Definition hydrate (f : Faults) (w : World) : Completion unit * World :=
  let '(st, db) := w in
  let snapshot := loadSnapshot f snapshot_current db in
  let lastPullAt' := as_string (loadMeta f meta_lastPullAt db) in
  let lastPushAt' := as_string (loadMeta f meta_lastPushAt db) in
  let baseVersion' := as_number (loadMeta f meta_baseVersion db) in
  match snapshot with
  | Some snapshot =>
      (Returns (),
       ({| rules := snap_rules snapshot;
           tags := snap_tags snapshot;
           baseVersion := nullish (Some (snap_baseVersion snapshot)) baseVersion';
           lastPullAt := nullish lastPullAt' (Some (savedAt snapshot));
           lastPushAt := lastPushAt';
           isLoading := isLoading st;
           isHydrated := true;
           error := error st |}, db))
  | None =>
      (Returns (),
       ({| rules := rules st;
           tags := tags st;
           baseVersion := baseVersion';
           lastPullAt := lastPullAt';
           lastPushAt := lastPushAt';
           isLoading := isLoading st;
           isHydrated := true;
           error := error st |}, db))
  end.

(** [persistCurrent]: nothing is written while [baseVersion] is [null]; a
    failed write is logged and swallowed. *)
Definition persistCurrent (f : Faults) (now : string) (w : World)
  : Completion unit * World :=
  let '(st, db) := w in
  match baseVersion st with
  | None => (Returns (), (st, db))
  | Some baseVersion =>
      let snapshot :=
        {| savedAt := now;
           snap_baseVersion := baseVersion;
           snap_rules := rules st;
           snap_tags := tags st |} in
      (Returns (), (st, (saveSnapshot f snapshot_current snapshot db).2))
  end.

(** [get().persistCurrent().catch(console.error)]: the promise is neither
    awaited nor allowed to reject; the caller goes on and returns. *)
Definition fire_and_forget (r : Completion unit * World)
  : Completion unit * World :=
  (Returns (), r.2).

Definition set_rules (new_rules : list Rule) (st : DataState) : DataState :=
  {| rules := new_rules; tags := tags st; baseVersion := baseVersion st;
     lastPullAt := lastPullAt st; lastPushAt := lastPushAt st;
     isLoading := isLoading st; isHydrated := isHydrated st;
     error := error st |}.

(** [addRule]: [set(state => ({ rules: [...state.rules, rule] }))] *)
Definition addRule (f : Faults) (now : string) (rule : Rule) (w : World)
  : Completion unit * World :=
  let '(st, db) := w in
  fire_and_forget
    (persistCurrent f now (set_rules (rules st ++ [rule]) st, db)).

(** [updateRule]:
    [rules.map(r => r.ruleId === ruleId ? { ...r, ...updates } : r)] *)
Definition updateRule (f : Faults) (now : string) (id : string)
    (updates : PartialRule) (w : World) : Completion unit * World :=
  let '(st, db) := w in
  fire_and_forget
    (persistCurrent f now
       (set_rules
          ((λ r, if decide (ruleId r = id) then spread_rule r updates else r)
             <$> rules st) st, db)).

(** [deleteRule]: [rules.filter(r => r.ruleId !== ruleId)] *)
Definition deleteRule (f : Faults) (now : string) (id : string) (w : World)
  : Completion unit * World :=
  let '(st, db) := w in
  fire_and_forget
    (persistCurrent f now
       (set_rules (filter (λ r, ruleId r ≠ id) (rules st)) st, db)).

(** [setTags]: [set({ tags })] *)
Definition setTags (f : Faults) (now : string) (new_tags : TagData) (w : World)
  : Completion unit * World :=
  let '(st, db) := w in
  fire_and_forget
    (persistCurrent f now
       ({| rules := rules st; tags := new_tags; baseVersion := baseVersion st;
           lastPullAt := lastPullAt st; lastPushAt := lastPushAt st;
           isLoading := isLoading st; isHydrated := isHydrated st;
           error := error st |}, db)).

(** [clearError]: [set({ error: null })] *)
Definition clearError (st : DataState) : DataState :=
  {| rules := rules st; tags := tags st; baseVersion := baseVersion st;
     lastPullAt := lastPullAt st; lastPushAt := lastPushAt st;
     isLoading := isLoading st; isHydrated := isHydrated st;
     error := None |}.

(* ===================================================================== *)
(** * Local and push-side operations as a script                          *)
(* ===================================================================== *)

(** The writers of the local store other than [pull]: the store's local
    mutations and the push-side composite write, each with the environment
    of its own call. *)
Inductive LocalOp :=
| OpAddRule (f : Faults) (now : string) (rule : Rule)
| OpUpdateRule (f : Faults) (now : string) (id : string) (updates : PartialRule)
| OpDeleteRule (f : Faults) (now : string) (id : string)
| OpSetTags (f : Faults) (now : string) (new_tags : TagData)
| OpPersistCurrent (f : Faults) (now : string)
| OpSaveAfterPush (f : Faults) (snapshot : LocalSnapshot) (pushedAt : string)
    (newVersion : Z).

(** The CRUD paths of the store, as opposed to the push-side write. *)
Definition is_crud (op : LocalOp) : bool :=
  match op with
  | OpSaveAfterPush _ _ _ _ => false
  | _ => true
  end.

Definition run_op (op : LocalOp) (w : World) : World :=
  match op with
  | OpAddRule f now rule => (addRule f now rule w).2
  | OpUpdateRule f now id updates => (updateRule f now id updates w).2
  | OpDeleteRule f now id => (deleteRule f now id w).2
  | OpSetTags f now new_tags => (setTags f now new_tags w).2
  | OpPersistCurrent f now => (persistCurrent f now w).2
  | OpSaveAfterPush f snapshot pushedAt newVersion =>
      (w.1, (saveAfterPush f snapshot pushedAt newVersion w.2).2)
  end.

Fixpoint run_ops (ops : list LocalOp) (w : World) : World :=
  match ops with
  | [] => w
  | op :: ops' => run_ops ops' (run_op op w)
  end.

(** The snapshot [pull] builds from a response. *)
Definition snapshot_of_pull (pullRes : PullResponse) : LocalSnapshot :=
  {| savedAt := pulledAt pullRes;
     snap_baseVersion := version pullRes;
     snap_rules := items (pr_rules pullRes);
     snap_tags := pr_tags pullRes |}.

(** How many rules of a list carry a given [ruleId]. *)
Definition count_ruleId (id : string) (l : list Rule) : nat :=
  length (filter (λ r, ruleId r = id) l).

(* ===================================================================== *)
(** * Sample data                                                         *)
(* ===================================================================== *)

Module Samples.

Definition clock : string := "2026-01-23T10:30:00.000Z".

Definition rule (id : string) : Rule :=
  {| ruleId := id;
     sectionNumber := "3.2.1";
     title := "Connection";
     level := 3;
     category := resource_management;
     severity := CRITICAL;
     description := "JDBC Connection";
     message := "close the connection";
     suggestion := "try-with-resources";
     keywords := ["Connection"; "close"];
     source := "guideline:3.2.1";
     sourceFile := "guideline_1.docx";
     sourcePrefix := "G1";
     problematicCode := None;
     fixedCode := None;
     hasTables := false;
     hasImages := false;
     tables := [];
     metadata := {| rm_createdAt := clock; rm_source := "3.2.1";
                    rm_sourceFile := "guideline_1.docx";
                    rm_version := "4.3" |};
     checkType := llm_with_regex;
     checkTypeReason := "regex then llm";
     tagCondition := "USES_CONNECTION && !HAS_TRY_WITH_RESOURCES";
     requiredTags := ["USES_CONNECTION"];
     excludeTags := ["HAS_TRY_WITH_RESOURCES"];
     antiPatterns := [];
     goodPatterns := [];
     isActive := true |}.

(** Scenario A: the pull answers version 1000 with one rule. *)
Definition pull_1000 : PullResponse :=
  {| version := 1000;
     pulledAt := clock;
     pr_rules := {| count := 1; items := [rule "G1.A.1"] |};
     pr_tags := EMPTY_TAG_DATA clock;
     pr_metadata := {| ruleCount := 1; tagCount := 0;
                       compoundTagCount := 0 |} |}.

Definition ready : DataState :=
  {| rules := [rule "G1.A.1"];
     tags := EMPTY_TAG_DATA clock;
     baseVersion := Some 1000;
     lastPullAt := Some clock;
     lastPushAt := None;
     isLoading := false;
     isHydrated := true;
     error := None |}.

Definition push_1000 : PushRequest :=
  {| rq_baseVersion := Some 1000;
     rq_rules := [rule "G1.A.1"];
     rq_tags := EMPTY_TAG_DATA clock;
     rq_force := false |}.

(** Scenario C: the server answers 409 with its conflict body. *)
Definition conflict_1005 : PushConflictResponse :=
  {| pc_message := "version conflict";
     pc_baseVersion := 1000;
     pc_currentVersion := 1005 |}.

Definition http_409_with_body : AxiosError :=
  {| ax_message := Some "Request failed with status code 409";
     ax_response :=
       Some {| resp_status := 409;
               resp_data := Some (PushBody (PushConflict conflict_1005)) |} |}.

(** A 409 answered without a body. *)
Definition http_409_without_body : AxiosError :=
  {| ax_message := Some "Request failed with status code 409";
     ax_response := Some {| resp_status := 409; resp_data := None |} |}.

(** A patch that carries a [ruleId]. *)
Definition rename_to (id : string) : PartialRule :=
  {| p_ruleId := Some id; p_sectionNumber := None; p_title := None;
     p_level := None; p_category := None; p_severity := None;
     p_description := None; p_message := None; p_suggestion := None;
     p_keywords := None; p_source := None; p_sourceFile := None;
     p_sourcePrefix := None; p_problematicCode := None; p_fixedCode := None;
     p_hasTables := None; p_hasImages := None; p_tables := None;
     p_metadata := None; p_checkType := None; p_checkTypeReason := None;
     p_tagCondition := None; p_requiredTags := None; p_excludeTags := None;
     p_antiPatterns := None; p_goodPatterns := None; p_isActive := None |}.

End Samples.

(* ===================================================================== *)
(** * src/stores/uiStore.ts                                               *)
(* ===================================================================== *)

Inductive NotificationType := nt_success | nt_error | nt_warning | nt_info.

(** [interface Notification] *)
Record Notification := {
  notif_id : string;
  notif_type : NotificationType;
  notif_title : string;
  notif_message : option string;
  notif_duration : option Z;
}.

(** [Omit<Notification, 'id'>], the argument of [addNotification]. *)
Record NotificationInput := {
  in_type : NotificationType;
  in_title : string;
  in_message : option string;
  in_duration : option Z;
}.

Inductive ServerStatus := connected | disconnected | checking.

(** [interface UiState] *)
Record UiState := {
  serverStatus : ServerStatus;
  lastCheckedAt : option string;
  serverVersion : option string;
  notifications : list Notification;
}.

(** The UI store together with the module variable
    [notificationIdCounter]. *)
Record UiWorld := {
  ui : UiState;
  notificationIdCounter : N;
}.

(** The store as created, with the counter at [0]. *)
Definition ui_initial : UiWorld :=
  {| ui := {| serverStatus := checking; lastCheckedAt := None;
              serverVersion := None; notifications := [] |};
     notificationIdCounter := 0 |}.

(** The template literal of [generateId], for the value the counter has
    after [++notificationIdCounter] and the value [Date.now()] returned.
    Both are integers and print in decimal. *)
Definition format_id (counter : N) (now : Z) : string :=
  "notif-" +:+ pretty counter +:+ "-" +:+ pretty now.

(** [generateId]: the pre-increment and the id. *)
Definition generateId (now : Z) (counter : N) : N * string :=
  let counter' := (counter + 1)%N in
  (counter', format_id counter' now).

Definition set_notifications (l : list Notification) (s : UiState) : UiState :=
  {| serverStatus := serverStatus s; lastCheckedAt := lastCheckedAt s;
     serverVersion := serverVersion s; notifications := l |}.

(** [removeNotification]: [notifications.filter(n => n.id !== id)] *)
Definition removeNotification (id : string) (w : UiWorld) : UiWorld :=
  {| ui := set_notifications
             (filter (λ n, notif_id n ≠ id) (notifications (ui w))) (ui w);
     notificationIdCounter := notificationIdCounter w |}.

(** [clearNotifications] *)
Definition clearNotifications (w : UiWorld) : UiWorld :=
  {| ui := set_notifications [] (ui w);
     notificationIdCounter := notificationIdCounter w |}.

(** The timer [addNotification] arms: after [delay] milliseconds it calls
    [removeNotification(id)]. *)
Record Timer := {
  delay : Z;
  target : string;
}.

(** [addNotification]: the notification is appended under a fresh id, and
    unless its duration (4000 when absent) is [0] or less a timer is armed
    to remove it. *)
Definition addNotification (now : Z) (notification : NotificationInput)
    (w : UiWorld) : UiWorld * option Timer :=
  let '(counter', id) := generateId now (notificationIdCounter w) in
  let added :=
    {| notif_id := id;
       notif_type := in_type notification;
       notif_title := in_title notification;
       notif_message := in_message notification;
       notif_duration := in_duration notification |} in
  let w' :=
    {| ui := set_notifications (notifications (ui w) ++ [added]) (ui w);
       notificationIdCounter := counter' |} in
  let duration := default 4000 (in_duration notification) in
  (w', if bool_decide (0 < duration)
       then Some {| delay := duration; target := id |}
       else None).

(** [notifySuccess], [notifyError], [notifyWarning], [notifyInfo] *)
Definition notifySuccess (now : Z) (title : string) (message : option string)
    (w : UiWorld) : UiWorld * option Timer :=
  addNotification now
    {| in_type := nt_success; in_title := title; in_message := message;
       in_duration := None |} w.

Definition notifyError (now : Z) (title : string) (message : option string)
    (w : UiWorld) : UiWorld * option Timer :=
  addNotification now
    {| in_type := nt_error; in_title := title; in_message := message;
       in_duration := Some 6000 |} w.

Definition notifyWarning (now : Z) (title : string) (message : option string)
    (w : UiWorld) : UiWorld * option Timer :=
  addNotification now
    {| in_type := nt_warning; in_title := title; in_message := message;
       in_duration := Some 5000 |} w.

Definition notifyInfo (now : Z) (title : string) (message : option string)
    (w : UiWorld) : UiWorld * option Timer :=
  addNotification now
    {| in_type := nt_info; in_title := title; in_message := message;
       in_duration := None |} w.

(** [setServerStatus], [setServerChecked], [setServerDisconnected];
    [now] is [new Date().toISOString()]. *)
Definition setServerStatus (status : ServerStatus) (w : UiWorld) : UiWorld :=
  {| ui := {| serverStatus := status; lastCheckedAt := lastCheckedAt (ui w);
              serverVersion := serverVersion (ui w);
              notifications := notifications (ui w) |};
     notificationIdCounter := notificationIdCounter w |}.

Definition setServerChecked (now : string) (version : string) (w : UiWorld)
  : UiWorld :=
  {| ui := {| serverStatus := connected; lastCheckedAt := Some now;
              serverVersion := Some version;
              notifications := notifications (ui w) |};
     notificationIdCounter := notificationIdCounter w |}.

Definition setServerDisconnected (now : string) (w : UiWorld) : UiWorld :=
  {| ui := {| serverStatus := disconnected; lastCheckedAt := Some now;
              serverVersion := serverVersion (ui w);
              notifications := notifications (ui w) |};
     notificationIdCounter := notificationIdCounter w |}.

(** The calls the UI store receives, a fired timer being one more call of
    [removeNotification]. *)
Inductive UiOp :=
| UiAdd (now : Z) (notification : NotificationInput)
| UiNotifySuccess (now : Z) (title : string) (message : option string)
| UiNotifyError (now : Z) (title : string) (message : option string)
| UiNotifyWarning (now : Z) (title : string) (message : option string)
| UiNotifyInfo (now : Z) (title : string) (message : option string)
| UiRemove (id : string)
| UiClear
| UiSetServerStatus (status : ServerStatus)
| UiSetServerChecked (now : string) (version : string)
| UiSetServerDisconnected (now : string).

Definition run_ui_op (op : UiOp) (w : UiWorld) : UiWorld :=
  match op with
  | UiAdd now notification => (addNotification now notification w).1
  | UiNotifySuccess now title message => (notifySuccess now title message w).1
  | UiNotifyError now title message => (notifyError now title message w).1
  | UiNotifyWarning now title message => (notifyWarning now title message w).1
  | UiNotifyInfo now title message => (notifyInfo now title message w).1
  | UiRemove id => removeNotification id w
  | UiClear => clearNotifications w
  | UiSetServerStatus status => setServerStatus status w
  | UiSetServerChecked now version => setServerChecked now version w
  | UiSetServerDisconnected now => setServerDisconnected now w
  end.

Fixpoint run_ui_ops (ops : list UiOp) (w : UiWorld) : UiWorld :=
  match ops with
  | [] => w
  | op :: ops' => run_ui_ops ops' (run_ui_op op w)
  end.


(** One key after a write that may fail: the new value when the request
    went through, the old one otherwise. *)
Definition landed {A} (f : Faults) (key : string) (new : A)
    (old : option A) : option A :=
  match put_fault f key with
  | None => Some new
  | Some _ => old
  end.

(** The environment of one local operation: the faults of its call and the
    time it reads (the push time for the push-side write). *)
Definition op_faults (op : LocalOp) : Faults :=
  match op with
  | OpAddRule f _ _ | OpUpdateRule f _ _ _ | OpDeleteRule f _ _
  | OpSetTags f _ _ | OpPersistCurrent f _ | OpSaveAfterPush f _ _ _ => f
  end.

Definition op_now (op : LocalOp) : string :=
  match op with
  | OpAddRule _ now _ | OpUpdateRule _ now _ _ | OpDeleteRule _ now _
  | OpSetTags _ now _ | OpPersistCurrent _ now
  | OpSaveAfterPush _ _ now _ => now
  end.

(** The in-memory fields no local edit is meant to move. *)
Definition same_session (st st' : DataState) : Prop :=
  baseVersion st' = baseVersion st ∧
  lastPullAt st' = lastPullAt st ∧
  lastPushAt st' = lastPushAt st ∧
  isLoading st' = isLoading st ∧
  isHydrated st' = isHydrated st ∧
  error st' = error st.

(** The in-memory state [pull] installs from a response, and the one its
    [catch] block leaves. *)
Definition installed (pullRes : PullResponse) (st : DataState) : DataState :=
  {| rules := items (pr_rules pullRes);
     tags := pr_tags pullRes;
     baseVersion := Some (version pullRes);
     lastPullAt := Some (pulledAt pullRes);
     lastPushAt := lastPushAt st;
     isLoading := false;
     isHydrated := isHydrated st;
     error := None |}.

Definition after_catch (e : Thrown) (st : DataState) : DataState :=
  {| rules := rules st; tags := tags st; baseVersion := baseVersion st;
     lastPullAt := lastPullAt st; lastPushAt := lastPushAt st;
     isLoading := false; isHydrated := isHydrated st;
     error := Some (pull_error_message e) |}.

(** The synchronous [set] of a CRUD action, before its persist starts. *)
Definition edit (op : LocalOp) (st : DataState) : DataState :=
  match op with
  | OpAddRule _ _ rule => set_rules (rules st ++ [rule]) st
  | OpUpdateRule _ _ id updates =>
      set_rules
        ((λ r, if decide (ruleId r = id) then spread_rule r updates else r)
           <$> rules st) st
  | OpDeleteRule _ _ id =>
      set_rules (filter (λ r, ruleId r ≠ id) (rules st)) st
  | OpSetTags _ _ new_tags =>
      {| rules := rules st; tags := new_tags; baseVersion := baseVersion st;
         lastPullAt := lastPullAt st; lastPushAt := lastPushAt st;
         isLoading := isLoading st; isHydrated := isHydrated st;
         error := error st |}
  | OpPersistCurrent _ _ | OpSaveAfterPush _ _ _ _ => st
  end.

(** A string without the character [-]. *)
Fixpoint dash_free (s : string) : Prop :=
  match s with
  | EmptyString => True
  | String c s' => c ≠ "-"%char ∧ dash_free s'
  end.

(** The ids in the queue are pairwise distinct and were all generated from
    a counter value the counter has reached. *)
Definition ids_well_formed (w : UiWorld) : Prop :=
  NoDup (notif_id <$> notifications (ui w)) ∧
  Forall (λ n, ∃ c t, notif_id n = format_id c t ∧
                      (c ≤ notificationIdCounter w)%N)
    (notifications (ui w)).

(** The snapshot [persistCurrent] builds from the in-memory state. *)
Definition snapshot_of_state (now : string) (v : Z) (st : DataState)
  : LocalSnapshot :=
  {| savedAt := now; snap_baseVersion := v;
     snap_rules := rules st; snap_tags := tags st |}.

(* ===================================================================== *)
(** * Remote client: the 409 special case                                 *)
(* ===================================================================== *)

Lemma normalize_status (error : AxiosError) :
  ne_status (normalize error) = error_status error.
Proof. reflexivity. Qed.

Lemma normalize_original (error : AxiosError) :
  ne_originalError (normalize error) = error.
Proof. reflexivity. Qed.

(** The body a rejected request hands to [pushData]'s 409 branch. *)
Lemma conflict_body_normalize (error : AxiosError) :
  error_status error = Some 409 →
  conflict_body (ApiFailure (normalize error)) = error_data error.
Proof.
  intros Hs. unfold conflict_body.
  rewrite normalize_status, normalize_original, Hs.
  by rewrite bool_decide_eq_true_2.
Qed.

Lemma conflict_body_other_status (error : AxiosError) :
  error_status error ≠ Some 409 →
  conflict_body (ApiFailure (normalize error)) = None.
Proof.
  intros Hs. unfold conflict_body. rewrite normalize_status.
  by rewrite bool_decide_eq_false_2.
Qed.

(** A 2xx answer is returned as it is. *)
Lemma pushData_resolved (payload : PushRequest) (data : PushResponse) :
  pushData payload (Resolved data) = Returns (PushBody data).
Proof. reflexivity. Qed.

(** Any failure other than a 409 is rethrown, normalised. *)
Lemma pushData_other_status (payload : PushRequest) (error : AxiosError) :
  error_status error ≠ Some 409 →
  pushData payload (Rejected error) = Throws (ApiFailure (normalize error)).
Proof.
  intros Hs. unfold pushData. cbn [request].
  by rewrite conflict_body_other_status.
Qed.

(** The server's conflict body passes the [isPushConflict] guard. *)
Lemma isPushConflict_conflict (r : PushConflictResponse) :
  isPushConflict (PushBody (PushConflict r)) = true.
Proof. reflexivity. Qed.

(** The two outcomes of a 409: the body of the response when it carries
    one, the normalised error rethrown when it carries none. *)
Lemma pushData_409 (payload : PushRequest) (error : AxiosError) :
  error_status error = Some 409 →
  match error_data error with
  | Some body => pushData payload (Rejected error) = Returns body
  | None =>
      pushData payload (Rejected error) = Throws (ApiFailure (normalize error))
  end.
Proof.
  intros Hs. unfold pushData. cbn [request].
  rewrite (conflict_body_normalize _ Hs).
  by destruct (error_data error).
Qed.

(** C1: for every push request, a version conflict (an HTTP 409 carrying
    the server's [PushConflictResponse] body) is returned by [pushData] as
    that typed conflict result, which passes the [isPushConflict] guard and
    not the [isPushSuccess] one; it is not raised as an error: [pushData]
    throws nothing on a version conflict. *)
Theorem pushData_version_conflict (payload : PushRequest) (error : AxiosError)
    (conflict : PushConflictResponse) :
  error_status error = Some 409 →
  error_data error = Some (PushBody (PushConflict conflict)) →
  pushData payload (Rejected error) = Returns (PushBody (PushConflict conflict)) ∧
  isPushConflict (PushBody (PushConflict conflict)) = true ∧
  isPushSuccess (PushBody (PushConflict conflict)) = false ∧
  ∀ thrown, pushData payload (Rejected error) ≠ Throws thrown.
Proof.
  intros Hs Hd.
  assert (Hret : pushData payload (Rejected error)
                 = Returns (PushBody (PushConflict conflict))).
  { unfold pushData. cbn [request].
    by rewrite (conflict_body_normalize _ Hs), Hd. }
  split; [exact Hret|]. split; [reflexivity|]. split; [reflexivity|].
  intros thrown. by rewrite Hret.
Qed.

Lemma pushData_version_conflict_witness :
  error_status Samples.http_409_with_body = Some 409 ∧
  error_data Samples.http_409_with_body
  = Some (PushBody (PushConflict Samples.conflict_1005)) ∧
  pushData Samples.push_1000 (Rejected Samples.http_409_with_body)
  = Returns (PushBody (PushConflict Samples.conflict_1005)) ∧
  isPushConflict (PushBody (PushConflict Samples.conflict_1005)) = true.
Proof.
  split; [reflexivity|]. split; [reflexivity|].
  destruct (pushData_version_conflict Samples.push_1000
              Samples.http_409_with_body Samples.conflict_1005
              eq_refl eq_refl) as (Hret & Hguard & _).
  split; [exact Hret | exact Hguard].
Defined.

(* ===================================================================== *)
(** * Local store: single writes                                          *)
(* ===================================================================== *)

Lemma puts_land_cons f k keys :
  puts_land f (k :: keys) ↔ put_fault f k = None ∧ puts_land f keys.
Proof. unfold puts_land. by rewrite Forall_cons. Qed.

Lemma puts_land_no_faults keys : puts_land no_faults keys.
Proof. by apply Forall_forall. Qed.

Lemma saveSnapshot_ok f slot snapshot db :
  put_fault f (snapshot_key slot) = None →
  saveSnapshot f slot snapshot db
  = (Returns (),
     {| snapshots := <[snapshot_key slot := snapshot]> (snapshots db);
        meta := meta db |}).
Proof. intros H. unfold saveSnapshot. by rewrite H. Qed.

Lemma saveSnapshot_fault f slot snapshot db msg :
  put_fault f (snapshot_key slot) = Some msg →
  saveSnapshot f slot snapshot db = (Throws (StorageFailure msg), db).
Proof. intros H. unfold saveSnapshot. by rewrite H. Qed.

Lemma saveMeta_ok f slot value db :
  put_fault f (meta_key slot) = None →
  saveMeta f slot value db
  = (Returns (),
     {| snapshots := snapshots db;
        meta := <[meta_key slot := value]> (meta db) |}).
Proof. intros H. unfold saveMeta. by rewrite H. Qed.

(** A snapshot write leaves every other slot and the whole meta store as
    they were, whether it lands or not. *)
Lemma saveSnapshot_frame f slot snapshot db k :
  k ≠ snapshot_key slot →
  snapshots (saveSnapshot f slot snapshot db).2 !! k = snapshots db !! k.
Proof.
  intros Hk. unfold saveSnapshot.
  destruct (put_fault f (snapshot_key slot)); cbn; [done|].
  by rewrite lookup_insert_ne.
Qed.

Lemma saveSnapshot_meta f slot snapshot db :
  meta (saveSnapshot f slot snapshot db).2 = meta db.
Proof. unfold saveSnapshot. by destruct (put_fault f (snapshot_key slot)). Qed.

(** A meta write never touches the snapshot store. *)
Lemma saveMeta_snapshots f slot value db :
  snapshots (saveMeta f slot value db).2 = snapshots db.
Proof. unfold saveMeta. by destruct (put_fault f (meta_key slot)). Qed.

Lemma saveMeta_frame f slot value db k :
  k ≠ meta_key slot →
  meta (saveMeta f slot value db).2 !! k = meta db !! k.
Proof.
  intros Hk. unfold saveMeta.
  destruct (put_fault f (meta_key slot)); cbn; [done|].
  by rewrite lookup_insert_ne.
Qed.

(** The world after the composite writes, as a chain of single writes. *)
Lemma saveAfterPull_db f snapshot db :
  (saveAfterPull f snapshot db).2
  = (saveMeta f meta_baseVersion (MetaNumber (snap_baseVersion snapshot))
       (saveMeta f meta_lastPullAt (MetaString (savedAt snapshot))
          (saveSnapshot f snapshot_current snapshot
             (saveSnapshot f snapshot_origin snapshot db).2).2).2).2.
Proof.
  unfold saveAfterPull.
  destruct (saveSnapshot f snapshot_origin snapshot db) as [r1 db1]; cbn.
  destruct (saveSnapshot f snapshot_current snapshot db1) as [r2 db2]; cbn.
  destruct (saveMeta f meta_lastPullAt _ db2) as [r3 db3]; cbn.
  by destruct (saveMeta f meta_baseVersion _ db3) as [r4 db4].
Qed.

Lemma saveAfterPush_db f snapshot pushedAt newVersion db :
  let updated :=
    {| savedAt := pushedAt; snap_baseVersion := newVersion;
       snap_rules := snap_rules snapshot; snap_tags := snap_tags snapshot |} in
  (saveAfterPush f snapshot pushedAt newVersion db).2
  = (saveMeta f meta_baseVersion (MetaNumber newVersion)
       (saveMeta f meta_lastPushAt (MetaString pushedAt)
          (saveSnapshot f snapshot_current updated
             (saveSnapshot f snapshot_lastPush updated db).2).2).2).2.
Proof.
  unfold saveAfterPush; cbn zeta.
  destruct (saveSnapshot f snapshot_lastPush _ db) as [r1 db1]; cbn.
  destruct (saveSnapshot f snapshot_current _ db1) as [r2 db2]; cbn.
  destruct (saveMeta f meta_lastPushAt _ db2) as [r3 db3]; cbn.
  by destruct (saveMeta f meta_baseVersion _ db3) as [r4 db4].
Qed.

(** The composite write settles as [Returns] exactly when none of its four
    requests fails. *)
Lemma saveAfterPull_returns_iff f snapshot db :
  (saveAfterPull f snapshot db).1 = Returns () ↔
  puts_land f ["snapshot:origin"; "snapshot:current";
               "meta:lastPullAt"; "meta:baseVersion"].
Proof.
  unfold saveAfterPull, saveSnapshot, saveMeta, puts_land; cbn.
  rewrite !Forall_cons.
  destruct (put_fault f "snapshot:origin"),
           (put_fault f "snapshot:current"),
           (put_fault f "meta:lastPullAt"),
           (put_fault f "meta:baseVersion"); cbn;
    (split; [intros ?; by simplify_eq | intros (? & ? & ? & ? & _); by simplify_eq]).
Qed.

Lemma saveAfterPush_returns_iff f snapshot pushedAt newVersion db :
  (saveAfterPush f snapshot pushedAt newVersion db).1 = Returns () ↔
  puts_land f ["snapshot:lastPush"; "snapshot:current";
               "meta:lastPushAt"; "meta:baseVersion"].
Proof.
  unfold saveAfterPush, saveSnapshot, saveMeta, puts_land; cbn.
  rewrite !Forall_cons.
  destruct (put_fault f "snapshot:lastPush"),
           (put_fault f "snapshot:current"),
           (put_fault f "meta:lastPushAt"),
           (put_fault f "meta:baseVersion"); cbn;
    (split; [intros ?; by simplify_eq | intros (? & ? & ? & ? & _); by simplify_eq]).
Qed.

(* ===================================================================== *)
(** * Local store: the composite writes                                   *)
(* ===================================================================== *)

(** C2: when its four writes land, [saveAfterPull snapshot] resolves and
    leaves [snapshot] in both the origin and the current slot,
    [snapshot.savedAt] under [meta:lastPullAt] and [snapshot.baseVersion]
    under [meta:baseVersion]; the origin and current slots are then equal. *)
Theorem saveAfterPull_writes (f : Faults) (snapshot : LocalSnapshot) (db : IDB) :
  puts_land f ["snapshot:origin"; "snapshot:current";
               "meta:lastPullAt"; "meta:baseVersion"] →
  ∃ db',
    saveAfterPull f snapshot db = (Returns (), db') ∧
    snapshots db' !! "snapshot:origin" = Some snapshot ∧
    snapshots db' !! "snapshot:current" = Some snapshot ∧
    meta db' !! "meta:lastPullAt" = Some (MetaString (savedAt snapshot)) ∧
    meta db' !! "meta:baseVersion"
    = Some (MetaNumber (snap_baseVersion snapshot)) ∧
    snapshots db' !! "snapshot:origin" = snapshots db' !! "snapshot:current".
Proof.
  rewrite !puts_land_cons. intros (Ho & Hc & Hp & Hb & _).
  unfold saveAfterPull, saveSnapshot, saveMeta; cbn.
  rewrite Ho, Hc, Hp, Hb; cbn.
  eexists; split; [reflexivity|]; cbn.
  by simplify_map_eq.
Qed.

Lemma saveAfterPull_writes_witness :
  puts_land no_faults ["snapshot:origin"; "snapshot:current";
                       "meta:lastPullAt"; "meta:baseVersion"] ∧
  ∃ db',
    saveAfterPull no_faults (snapshot_of_pull Samples.pull_1000) empty_db
    = (Returns (), db') ∧
    snapshots db' !! "snapshot:origin"
    = Some (snapshot_of_pull Samples.pull_1000) ∧
    snapshots db' !! "snapshot:current"
    = Some (snapshot_of_pull Samples.pull_1000) ∧
    meta db' !! "meta:lastPullAt" = Some (MetaString Samples.clock) ∧
    meta db' !! "meta:baseVersion" = Some (MetaNumber 1000) ∧
    snapshots db' !! "snapshot:origin" = snapshots db' !! "snapshot:current".
Proof.
  split; [apply puts_land_no_faults|].
  apply (saveAfterPull_writes no_faults (snapshot_of_pull Samples.pull_1000)
           empty_db), puts_land_no_faults.
Defined.

(** C3: when its four writes land, [saveAfterPush snapshot pushedAt
    newVersion] resolves and leaves the snapshot, re-stamped with
    [baseVersion = newVersion] and [savedAt = pushedAt], in both the
    lastPush and the current slot, [pushedAt] under [meta:lastPushAt] and
    [newVersion] under [meta:baseVersion]; the lastPush and current slots
    are then equal. *)
Theorem saveAfterPush_writes (f : Faults) (snapshot : LocalSnapshot)
    (pushedAt : string) (newVersion : Z) (db : IDB) :
  puts_land f ["snapshot:lastPush"; "snapshot:current";
               "meta:lastPushAt"; "meta:baseVersion"] →
  let stamped :=
    {| savedAt := pushedAt; snap_baseVersion := newVersion;
       snap_rules := snap_rules snapshot; snap_tags := snap_tags snapshot |} in
  ∃ db',
    saveAfterPush f snapshot pushedAt newVersion db = (Returns (), db') ∧
    snapshots db' !! "snapshot:lastPush" = Some stamped ∧
    snapshots db' !! "snapshot:current" = Some stamped ∧
    meta db' !! "meta:lastPushAt" = Some (MetaString pushedAt) ∧
    meta db' !! "meta:baseVersion" = Some (MetaNumber newVersion) ∧
    snapshots db' !! "snapshot:lastPush" = snapshots db' !! "snapshot:current".
Proof.
  rewrite !puts_land_cons. intros (Hl & Hc & Hp & Hb & _) stamped.
  unfold saveAfterPush, saveSnapshot, saveMeta; cbn.
  rewrite Hl, Hc, Hp, Hb; cbn.
  eexists; split; [reflexivity|]; cbn.
  by simplify_map_eq.
Qed.

Lemma saveAfterPush_writes_witness :
  puts_land no_faults ["snapshot:lastPush"; "snapshot:current";
                       "meta:lastPushAt"; "meta:baseVersion"] ∧
  ∃ db',
    saveAfterPush no_faults (snapshot_of_pull Samples.pull_1000)
      "2026-01-24T08:00:00.000Z" 1006 empty_db = (Returns (), db') ∧
    snapshots db' !! "snapshot:lastPush"
    = Some {| savedAt := "2026-01-24T08:00:00.000Z";
              snap_baseVersion := 1006;
              snap_rules := [Samples.rule "G1.A.1"];
              snap_tags := EMPTY_TAG_DATA Samples.clock |} ∧
    snapshots db' !! "snapshot:current"
    = Some {| savedAt := "2026-01-24T08:00:00.000Z";
              snap_baseVersion := 1006;
              snap_rules := [Samples.rule "G1.A.1"];
              snap_tags := EMPTY_TAG_DATA Samples.clock |} ∧
    meta db' !! "meta:lastPushAt"
    = Some (MetaString "2026-01-24T08:00:00.000Z") ∧
    meta db' !! "meta:baseVersion" = Some (MetaNumber 1006) ∧
    snapshots db' !! "snapshot:lastPush" = snapshots db' !! "snapshot:current".
Proof.
  split; [apply puts_land_no_faults|].
  apply (saveAfterPush_writes no_faults (snapshot_of_pull Samples.pull_1000)
           "2026-01-24T08:00:00.000Z" 1006 empty_db), puts_land_no_faults.
Defined.

(* ===================================================================== *)
(** * Store: pull                                                         *)
(* ===================================================================== *)

(** What a successful remote read installs in memory, whether or not the
    persistence that follows succeeds. *)
Lemma pull_resolved_state pullRes f st db :
  let st' := (pull (Resolved pullRes) f (st, db)).2.1 in
  rules st' = items (pr_rules pullRes) ∧
  tags st' = pr_tags pullRes ∧
  baseVersion st' = Some (version pullRes) ∧
  lastPullAt st' = Some (pulledAt pullRes).
Proof.
  unfold pull; cbn.
  by destruct (saveAfterPull f _ db) as [[[]|e] db'].
Qed.

(** The database [pull] leaves is the one [saveAfterPull] leaves. *)
Lemma pull_resolved_db pullRes f st db :
  (pull (Resolved pullRes) f (st, db)).2.2
  = (saveAfterPull f (snapshot_of_pull pullRes) db).2.
Proof.
  unfold pull; cbn. fold (snapshot_of_pull pullRes).
  by destruct (saveAfterPull f _ db) as [[[]|e] db'].
Qed.

(** [pull] resolves when the remote read and the four writes succeed. *)
Lemma pull_returns pullRes f st db :
  puts_land f ["snapshot:origin"; "snapshot:current";
               "meta:lastPullAt"; "meta:baseVersion"] →
  (pull (Resolved pullRes) f (st, db)).1 = Returns ().
Proof.
  intros Hf. unfold pull; cbn.
  destruct (saveAfterPull_writes f (snapshot_of_pull pullRes) db Hf)
    as (db' & Heq & _).
  unfold snapshot_of_pull in Heq. by rewrite Heq.
Qed.

(** C7: when the remote read fails, [pull] rethrows the failure, clears the
    loading flag, records the failure's message in [error], and leaves
    [rules], [tags], [baseVersion] and [lastPullAt] (and the local store)
    as they were before the call. *)
Theorem pull_failure (e : AxiosError) (f : Faults) (st : DataState) (db : IDB) :
  let r := pull (Rejected e) f (st, db) in
  r.1 = Throws (ApiFailure (normalize e)) ∧
  isLoading r.2.1 = false ∧
  error r.2.1 = Some (ne_message (normalize e)) ∧
  rules r.2.1 = rules st ∧
  tags r.2.1 = tags st ∧
  baseVersion r.2.1 = baseVersion st ∧
  lastPullAt r.2.1 = lastPullAt st ∧
  r.2.2 = db.
Proof. cbn. by repeat split. Qed.

(** The recorded message is the server's when the failure carries one. *)
Lemma normalize_server_message (e : AxiosError) (msg : string) :
  error_data e ≫= body_message = Some msg →
  ne_message (normalize e) = msg.
Proof. intros H. unfold normalize; cbn. by rewrite H. Qed.

(* ===================================================================== *)
(** * Store: hydrate after pull                                           *)
(* ===================================================================== *)

(** [hydrate] only reads. *)
Lemma hydrate_db f st db : (hydrate f (st, db)).2.2 = db.
Proof.
  unfold hydrate. by destruct (loadSnapshot f snapshot_current db).
Qed.

Lemma hydrate_returns f w : (hydrate f w).1 = Returns ().
Proof.
  destruct w as [st db]. unfold hydrate.
  by destruct (loadSnapshot f snapshot_current db).
Qed.

(** When the current slot reads back a snapshot, [hydrate] installs its
    rules, tags and version. *)
Lemma hydrate_from_snapshot f st db snapshot :
  loadSnapshot f snapshot_current db = Some snapshot →
  let st' := (hydrate f (st, db)).2.1 in
  rules st' = snap_rules snapshot ∧
  tags st' = snap_tags snapshot ∧
  baseVersion st' = Some (snap_baseVersion snapshot) ∧
  isHydrated st' = true.
Proof. intros H. unfold hydrate. by rewrite H. Qed.

(** The current slot after a pull whose write to it landed. *)
Lemma pull_current_slot pullRes f st db :
  put_fault f "snapshot:current" = None →
  snapshots (pull (Resolved pullRes) f (st, db)).2.2 !! "snapshot:current"
  = Some (snapshot_of_pull pullRes).
Proof.
  intros Hc. rewrite pull_resolved_db, saveAfterPull_db.
  rewrite !saveMeta_snapshots.
  rewrite (saveSnapshot_ok _ snapshot_current) by done; cbn.
  by rewrite lookup_insert_eq.
Qed.

(** C4: round trip.  For every pull response, when the write of the
    current slot lands and is read back at the next start, [hydrate] run
    from the initial state on the database [pull] left restores the rules
    and the [baseVersion] that [pull] installed in memory, which are those
    of the response. *)
Theorem hydrate_after_pull (pullRes : PullResponse) (f_pull f_boot : Faults)
    (st : DataState) (db : IDB) (loadedAt : string) :
  put_fault f_pull "snapshot:current" = None →
  get_fault f_boot "snapshot:current" = None →
  let pulled := (pull (Resolved pullRes) f_pull (st, db)).2 in
  let booted := (hydrate f_boot (initialState loadedAt, pulled.2)).2 in
  rules booted.1 = rules pulled.1 ∧
  baseVersion booted.1 = baseVersion pulled.1 ∧
  rules booted.1 = items (pr_rules pullRes) ∧
  baseVersion booted.1 = Some (version pullRes).
Proof.
  intros Hput Hget pulled booted.
  destruct (pull_resolved_state pullRes f_pull st db) as (Hr & _ & Hv & _).
  fold pulled in Hr, Hv.
  assert (Hload : loadSnapshot f_boot snapshot_current pulled.2
                  = Some (snapshot_of_pull pullRes)).
  { unfold loadSnapshot; cbn. rewrite Hget.
    by apply pull_current_slot. }
  destruct (hydrate_from_snapshot f_boot (initialState loadedAt) _ _ Hload)
    as (Hr' & _ & Hv' & _).
  fold booted in Hr', Hv'.
  rewrite Hr, Hv, Hr', Hv'. by repeat split.
Qed.

Lemma hydrate_after_pull_witness :
  put_fault no_faults "snapshot:current" = None ∧
  get_fault no_faults "snapshot:current" = None ∧
  let pulled :=
    (pull (Resolved Samples.pull_1000) no_faults
       (initialState Samples.clock, empty_db)).2 in
  let booted := (hydrate no_faults (initialState Samples.clock, pulled.2)).2 in
  rules booted.1 = rules pulled.1 ∧
  baseVersion booted.1 = baseVersion pulled.1 ∧
  rules booted.1 = [Samples.rule "G1.A.1"] ∧
  baseVersion booted.1 = Some 1000.
Proof.
  split; [reflexivity|]. split; [reflexivity|].
  exact (hydrate_after_pull Samples.pull_1000 no_faults no_faults
           (initialState Samples.clock) empty_db Samples.clock
           eq_refl eq_refl).
Defined.

(* ===================================================================== *)
(** * Store: persistCurrent and the CRUD actions                          *)
(* ===================================================================== *)

Lemma set_rules_baseVersion l st : baseVersion (set_rules l st) = baseVersion st.
Proof. reflexivity. Qed.

(** [persistCurrent] never changes the in-memory state and always
    resolves. *)
Lemma persistCurrent_state f now st db :
  (persistCurrent f now (st, db)).2.1 = st.
Proof. unfold persistCurrent. by destruct (baseVersion st). Qed.

Lemma persistCurrent_returns f now w :
  (persistCurrent f now w).1 = Returns ().
Proof. destruct w as [st db]. unfold persistCurrent. by destruct (baseVersion st). Qed.

(** Before the first pull or hydration it writes nothing. *)
Lemma persistCurrent_unbased f now st db :
  baseVersion st = None →
  persistCurrent f now (st, db) = (Returns (), (st, db)).
Proof. intros H. unfold persistCurrent. by rewrite H. Qed.

(** It only ever writes the current slot. *)
Lemma persistCurrent_frame f now st db k :
  k ≠ "snapshot:current" →
  snapshots (persistCurrent f now (st, db)).2.2 !! k = snapshots db !! k.
Proof.
  intros Hk. unfold persistCurrent.
  destruct (baseVersion st); cbn; [|done].
  by apply (saveSnapshot_frame _ snapshot_current).
Qed.

Lemma persistCurrent_meta f now st db :
  meta (persistCurrent f now (st, db)).2.2 = meta db.
Proof.
  unfold persistCurrent.
  destruct (baseVersion st); cbn; [|done].
  apply saveSnapshot_meta.
Qed.

(** The in-memory state after each CRUD action. *)
Lemma addRule_state f now rule st db :
  (addRule f now rule (st, db)).2.1 = set_rules (rules st ++ [rule]) st.
Proof. unfold addRule, fire_and_forget; cbn [snd]. apply persistCurrent_state. Qed.

Lemma updateRule_state f now id updates st db :
  (updateRule f now id updates (st, db)).2.1
  = set_rules
      ((λ r, if decide (ruleId r = id) then spread_rule r updates else r)
         <$> rules st) st.
Proof. unfold updateRule, fire_and_forget; cbn [snd]. apply persistCurrent_state. Qed.

Lemma deleteRule_state f now id st db :
  (deleteRule f now id (st, db)).2.1
  = set_rules (filter (λ r, ruleId r ≠ id) (rules st)) st.
Proof. unfold deleteRule, fire_and_forget; cbn [snd]. apply persistCurrent_state. Qed.

Lemma setTags_baseVersion f now new_tags st db :
  baseVersion (setTags f now new_tags (st, db)).2.1 = baseVersion st.
Proof.
  unfold setTags, fire_and_forget; cbn [snd].
  by rewrite persistCurrent_state.
Qed.

(** No local operation changes the in-memory [baseVersion]. *)
Lemma run_op_baseVersion op w :
  baseVersion (run_op op w).1 = baseVersion w.1.
Proof.
  destruct w as [st db].
  destruct op; cbn [run_op fst snd]; try done.
  - by rewrite addRule_state.
  - by rewrite updateRule_state.
  - by rewrite deleteRule_state.
  - apply setTags_baseVersion.
  - by rewrite persistCurrent_state.
Qed.

(** While [baseVersion] is [null], a CRUD action leaves the database as it
    was. *)
Lemma run_op_unbased op st db :
  is_crud op = true →
  baseVersion st = None →
  (run_op op (st, db)).2 = db.
Proof.
  intros Hop Hb.
  destruct op; try discriminate Hop; cbn [run_op];
    unfold addRule, updateRule, deleteRule, setTags, fire_and_forget;
    cbn [snd]; by rewrite persistCurrent_unbased.
Qed.

(** C5: in a state whose [baseVersion] is [null], [persistCurrent] returns
    without writing anything (the whole world is as before), and so does
    every script of CRUD actions: the database is untouched and
    [baseVersion] is still [null] afterwards. *)
Theorem persistCurrent_null_baseVersion (f : Faults) (now : string)
    (st : DataState) (db : IDB) :
  baseVersion st = None →
  persistCurrent f now (st, db) = (Returns (), (st, db)) ∧
  ∀ ops, Forall (λ op, is_crud op = true) ops →
    (run_ops ops (st, db)).2 = db ∧
    baseVersion (run_ops ops (st, db)).1 = None.
Proof.
  intros Hb. split; [by apply persistCurrent_unbased|].
  intros ops. revert st Hb.
  induction ops as [|op ops IH]; intros st Hb Hops; [done|].
  apply Forall_cons in Hops as [Hop Hops].
  cbn [run_ops].
  destruct (run_op op (st, db)) as [st1 db1] eqn:Hrun.
  assert (db1 = db) as ->.
  { by rewrite <- (run_op_unbased op st db Hop Hb), Hrun. }
  apply IH; [|done].
  rewrite <- Hb. change st1 with (st1, db).1.
  rewrite <- Hrun. apply run_op_baseVersion.
Qed.

Lemma persistCurrent_null_baseVersion_witness :
  baseVersion (initialState Samples.clock) = None ∧
  persistCurrent no_faults Samples.clock (initialState Samples.clock, empty_db)
  = (Returns (), (initialState Samples.clock, empty_db)) ∧
  (run_ops [OpAddRule no_faults Samples.clock (Samples.rule "G1.B.2");
            OpDeleteRule no_faults Samples.clock "G1.A.1";
            OpPersistCurrent no_faults Samples.clock]
     (initialState Samples.clock, empty_db)).2 = empty_db.
Proof.
  split; [reflexivity|].
  destruct (persistCurrent_null_baseVersion no_faults Samples.clock
              (initialState Samples.clock) empty_db eq_refl) as [Hp Hops].
  split; [exact Hp|].
  apply Hops. repeat constructor.
Defined.

(** Every local or push-side operation leaves the origin slot alone. *)
Lemma run_op_origin op w :
  snapshots (run_op op w).2 !! "snapshot:origin"
  = snapshots w.2 !! "snapshot:origin".
Proof.
  destruct w as [st db].
  destruct op; cbn [run_op fst snd];
    unfold addRule, updateRule, deleteRule, setTags, fire_and_forget;
    cbn [snd]; try by apply persistCurrent_frame.
  rewrite saveAfterPush_db; cbn zeta.
  rewrite !saveMeta_snapshots.
  rewrite (saveSnapshot_frame _ snapshot_current) by done.
  by rewrite (saveSnapshot_frame _ snapshot_lastPush).
Qed.

Lemma run_ops_origin ops w :
  snapshots (run_ops ops w).2 !! "snapshot:origin"
  = snapshots w.2 !! "snapshot:origin".
Proof.
  revert w. induction ops as [|op ops IH]; intros w; [done|].
  cbn [run_ops]. by rewrite IH, run_op_origin.
Qed.

(** The origin slot after a pull whose write to it landed. *)
Lemma pull_origin_slot pullRes f st db :
  put_fault f "snapshot:origin" = None →
  snapshots (pull (Resolved pullRes) f (st, db)).2.2 !! "snapshot:origin"
  = Some (snapshot_of_pull pullRes).
Proof.
  intros Ho. rewrite pull_resolved_db, saveAfterPull_db.
  rewrite !saveMeta_snapshots.
  rewrite (saveSnapshot_frame _ snapshot_current) by done.
  rewrite (saveSnapshot_ok _ snapshot_origin) by done; cbn.
  by rewrite lookup_insert_eq.
Qed.

(** C6: no script of local mutations ([addRule], [updateRule],
    [deleteRule], [setTags], [persistCurrent]) and push-side writes
    ([saveAfterPush]) changes the origin slot; so after a pull that wrote
    the origin slot, followed by any such script, the origin slot still
    holds the pulled snapshot. *)
Theorem origin_written_only_by_pull (ops : list LocalOp) :
  (∀ w, snapshots (run_ops ops w).2 !! "snapshot:origin"
        = snapshots w.2 !! "snapshot:origin") ∧
  (∀ pullRes f w,
     put_fault f "snapshot:origin" = None →
     snapshots (run_ops ops (pull (Resolved pullRes) f w).2).2
       !! "snapshot:origin"
     = Some (snapshot_of_pull pullRes)).
Proof.
  split; [apply run_ops_origin|].
  intros pullRes f [st db] Ho.
  rewrite run_ops_origin. by apply pull_origin_slot.
Qed.

Lemma origin_written_only_by_pull_witness :
  put_fault no_faults "snapshot:origin" = None ∧
  let w :=
    run_ops [OpAddRule no_faults Samples.clock (Samples.rule "G1.B.2");
             OpSaveAfterPush no_faults
               {| savedAt := Samples.clock; snap_baseVersion := 1000;
                  snap_rules := [Samples.rule "G1.A.1"; Samples.rule "G1.B.2"];
                  snap_tags := EMPTY_TAG_DATA Samples.clock |}
               "2026-01-24T08:00:00.000Z" 1006]
      (pull (Resolved Samples.pull_1000) no_faults
         (initialState Samples.clock, empty_db)).2 in
  snapshots w.2 !! "snapshot:origin" = Some (snapshot_of_pull Samples.pull_1000).
Proof.
  split; [reflexivity|].
  exact (proj2 (origin_written_only_by_pull _) Samples.pull_1000 no_faults
           (initialState Samples.clock, empty_db) eq_refl).
Defined.

(* ===================================================================== *)
(** * Store: the rule list                                                *)
(* ===================================================================== *)

(** The CRUD actions always return to their caller: the persist they start
    is not awaited and cannot reject into them. *)
Lemma addRule_returns f now rule w : (addRule f now rule w).1 = Returns ().
Proof. by destruct w. Qed.

Lemma updateRule_returns f now id updates w :
  (updateRule f now id updates w).1 = Returns ().
Proof. by destruct w. Qed.

Lemma deleteRule_returns f now id w : (deleteRule f now id w).1 = Returns ().
Proof. by destruct w. Qed.

(** The map of [updateRule] is the identity on a list without the id. *)
Lemma update_map_missing (id : string) (updates : PartialRule) (l : list Rule) :
  Forall (λ r, ruleId r ≠ id) l →
  (λ r, if decide (ruleId r = id) then spread_rule r updates else r) <$> l = l.
Proof.
  induction 1 as [|r l Hr _ IH]; [done|].
  rewrite fmap_cons, IH. by rewrite decide_False.
Qed.

(** C8: when no rule of the list carries [ruleId], [updateRule ruleId
    updates] returns normally and leaves the rules list equal to the list
    before the call. *)
Theorem updateRule_missing_id (f : Faults) (now : string) (id : string)
    (updates : PartialRule) (st : DataState) (db : IDB) :
  Forall (λ r, ruleId r ≠ id) (rules st) →
  (updateRule f now id updates (st, db)).1 = Returns () ∧
  rules (updateRule f now id updates (st, db)).2.1 = rules st.
Proof.
  intros Hmissing. split; [apply updateRule_returns|].
  rewrite updateRule_state; cbn.
  by apply update_map_missing.
Qed.

Lemma updateRule_missing_id_witness :
  Forall (λ r, ruleId r ≠ "G1.Z.9") (rules Samples.ready) ∧
  (updateRule no_faults Samples.clock "G1.Z.9" (Samples.rename_to "G1.B.2")
     (Samples.ready, empty_db)).1 = Returns () ∧
  rules (updateRule no_faults Samples.clock "G1.Z.9"
           (Samples.rename_to "G1.B.2") (Samples.ready, empty_db)).2.1
  = [Samples.rule "G1.A.1"].
Proof.
  assert (H : Forall (λ r, ruleId r ≠ "G1.Z.9") (rules Samples.ready)).
  { repeat constructor. discriminate. }
  split; [exact H|].
  exact (updateRule_missing_id no_faults Samples.clock "G1.Z.9"
           (Samples.rename_to "G1.B.2") Samples.ready empty_db H).
Defined.

(** A patch of type [UpdateRuleInput] keeps the [ruleId] of the rule it is
    spread over, and [updateRule] with such a patch keeps the [ruleId] of
    every rule of the list, position by position. *)
Lemma spread_rule_ruleId (r : Rule) (u : PartialRule) :
  UpdateRuleInput u → ruleId (spread_rule r u) = ruleId r.
Proof. unfold UpdateRuleInput. intros H. cbn. by rewrite H. Qed.

Lemma updateRule_ruleIds f now id updates st db :
  UpdateRuleInput updates →
  ruleId <$> rules (updateRule f now id updates (st, db)).2.1
  = ruleId <$> rules st.
Proof.
  intros Hu. rewrite updateRule_state; cbn.
  rewrite <- list_fmap_compose. apply list_fmap_ext.
  intros i r _; cbn.
  destruct (decide (ruleId r = id)); [by apply spread_rule_ruleId|done].
Qed.

(** The empty patch leaves the rule as it is. *)
Lemma spread_rule_empty (r : Rule) : spread_rule r empty_patch = r.
Proof. by destruct r. Qed.

(** C9, at the failing input: the store's [updateRule] takes a
    [Partial<Rule>], so a patch may carry a [ruleId]; spreading it over the
    rule ["G1.A.1"] leaves that rule in the list under the id ["G1.B.2"]. *)
Theorem updateRule_reassigns_ruleId :
  ruleId <$> rules Samples.ready = ["G1.A.1"] ∧
  ruleId <$> rules (updateRule no_faults Samples.clock "G1.A.1"
                      (Samples.rename_to "G1.B.2")
                      (Samples.ready, empty_db)).2.1
  = ["G1.B.2"].
Proof. split; reflexivity. Qed.

(** [deleteRule] and [addRule] do not touch the rules they keep. *)
Lemma deleteRule_sublist f now id st db :
  rules (deleteRule f now id (st, db)).2.1
  = filter (λ r, ruleId r ≠ id) (rules st).
Proof. by rewrite deleteRule_state. Qed.

Lemma count_ruleId_app id l1 l2 :
  count_ruleId id (l1 ++ l2) = (count_ruleId id l1 + count_ruleId id l2)%nat.
Proof. unfold count_ruleId. by rewrite filter_app, length_app. Qed.

Lemma count_ruleId_self r : count_ruleId (ruleId r) [r] = 1%nat.
Proof. unfold count_ruleId. by rewrite filter_cons_True. Qed.

Lemma count_ruleId_member id r l :
  r ∈ l → ruleId r = id → (1 ≤ count_ruleId id l)%nat.
Proof.
  intros Hin Hid. unfold count_ruleId.
  assert (Hf : r ∈ filter (λ r, ruleId r = id) l)
    by by apply list_elem_of_filter.
  destruct (filter _ l); [by apply elem_of_nil in Hf | cbn; lia].
Qed.

(** C10: [addRule r] returns normally and the rules list becomes the
    previous list with [r] appended, whatever the list holds: the number of
    entries carrying [r]'s [ruleId] grows by one, so when the id was already
    in the list the result holds at least two entries with it. *)
Theorem addRule_appends (f : Faults) (now : string) (r : Rule)
    (st : DataState) (db : IDB) :
  let st' := (addRule f now r (st, db)).2.1 in
  (addRule f now r (st, db)).1 = Returns () ∧
  rules st' = rules st ++ [r] ∧
  count_ruleId (ruleId r) (rules st')
  = S (count_ruleId (ruleId r) (rules st)) ∧
  (∀ r0, r0 ∈ rules st → ruleId r0 = ruleId r →
     (2 ≤ count_ruleId (ruleId r) (rules st'))%nat).
Proof.
  intros st'. subst st'. rewrite addRule_state.
  unfold set_rules; cbn [rules].
  rewrite count_ruleId_app, count_ruleId_self.
  repeat split; [lia|].
  intros r0 Hin Hid.
  pose proof (count_ruleId_member _ _ _ Hin Hid). lia.
Qed.

Lemma addRule_appends_witness :
  Samples.rule "G1.A.1" ∈ rules Samples.ready ∧
  rules (addRule no_faults Samples.clock (Samples.rule "G1.A.1")
           (Samples.ready, empty_db)).2.1
  = [Samples.rule "G1.A.1"; Samples.rule "G1.A.1"] ∧
  (2 ≤ count_ruleId "G1.A.1"
         (rules (addRule no_faults Samples.clock (Samples.rule "G1.A.1")
                   (Samples.ready, empty_db)).2.1))%nat.
Proof.
  assert (Hin : Samples.rule "G1.A.1" ∈ rules Samples.ready)
    by apply list_elem_of_here.
  split; [exact Hin|].
  destruct (addRule_appends no_faults Samples.clock (Samples.rule "G1.A.1")
              Samples.ready empty_db) as (_ & Happ & _ & Hdup).
  split; [exact Happ|].
  exact (Hdup (Samples.rule "G1.A.1") Hin eq_refl).
Defined.

(* ===================================================================== *)
(** * Remote client: further properties                                   *)
(* ===================================================================== *)

(** [pushData] returns a value in exactly two cases, a 2xx answer (its
    data) and a 409 whose response carries a body (that body); whatever it
    throws is the interceptor's normalised error of the failed request. *)
Theorem pushData_returns_iff (payload : PushRequest)
    (net : Transport PushResponse) :
  (∀ body,
     pushData payload net = Returns body ↔
     (∃ data, net = Resolved data ∧ body = PushBody data) ∨
     (∃ error, net = Rejected error ∧ error_status error = Some 409 ∧
               error_data error = Some body)) ∧
  (∀ thrown,
     pushData payload net = Throws thrown →
     ∃ error, net = Rejected error ∧ thrown = ApiFailure (normalize error)).
Proof.
  destruct net as [data|error].
  - split.
    + intros body. rewrite pushData_resolved. split.
      * intros [= <-]. left. by exists data.
      * intros [(d & [= <-] & ->)|(e & [=] & _)]. done.
    + intros thrown. by rewrite pushData_resolved.
  - unfold pushData; cbn [request].
    destruct (decide (error_status error = Some 409)) as [Hs|Hs].
    + rewrite (conflict_body_normalize _ Hs). split.
      * intros body. split.
        -- destruct (error_data error) as [b|] eqn:Hd; [|done].
           intros [= <-]. right. by exists error.
        -- intros [(d & [=] & _)|(e & [= <-] & _ & ->)]. done.
      * intros thrown. destruct (error_data error); [done|].
        intros [= <-]. by exists error.
    + rewrite (conflict_body_other_status _ Hs). split.
      * intros body. split; [done|].
        intros [(d & [=] & _)|(e & [= <-] & Hs' & _)]. done.
      * intros thrown [= <-]. by exists error.
Qed.

(** The two guards of a push result never hold together; on a typed
    [PushResponse] exactly one of them holds, and on an error body with
    another code than [VERSION_CONFLICT] neither does. *)
Theorem push_guards_exclusive :
  (∀ res, ¬ (isPushConflict res = true ∧ isPushSuccess res = true)) ∧
  (∀ r, isPushConflict (PushBody r) = negb (isPushSuccess (PushBody r))) ∧
  (∀ r, (isPushConflict (ErrorBody r) = true ↔
         ae_error r = VERSION_CONFLICT) ∧
        isPushSuccess (ErrorBody r) = false).
Proof.
  split; [|split].
  - intros res [Hc Hs]. unfold isPushConflict, isPushSuccess in *.
    rewrite Hs in Hc. done.
  - by intros [r|r].
  - intros [[] msg]; by repeat split.
Qed.

Lemma pull_rejected_error e f st db :
  error (pull (Rejected e) f (st, db)).2.1 = Some (ne_message (normalize e)).
Proof. reflexivity. Qed.

(** A failed pull shows the server's own message when the failed response
    carries one, and the transport's message when no response arrived. *)
Theorem pull_failure_message (e : AxiosError) (f : Faults)
    (st : DataState) (db : IDB) :
  (∀ msg, error_data e ≫= body_message = Some msg →
     error (pull (Rejected e) f (st, db)).2.1 = Some msg) ∧
  (∀ msg, ax_response e = None → ax_message e = Some msg →
     error (pull (Rejected e) f (st, db)).2.1 = Some msg).
Proof.
  split; intros msg; rewrite pull_rejected_error.
  - intros Hm. by rewrite (normalize_server_message _ _ Hm).
  - intros Hr Hm.
    unfold normalize, error_data, error_status, fallback_message; cbn.
    by rewrite Hr, Hm.
Qed.

Lemma pull_failure_message_witness :
  error_data Samples.http_409_with_body ≫= body_message
  = Some "version conflict" ∧
  error (pull (Rejected Samples.http_409_with_body) no_faults
           (Samples.ready, empty_db)).2.1
  = Some "version conflict".
Proof.
  split; [reflexivity|].
  exact (proj1 (pull_failure_message Samples.http_409_with_body no_faults
                  Samples.ready empty_db) "version conflict" eq_refl).
Defined.

(* ===================================================================== *)
(** * Local store: further properties                                     *)
(* ===================================================================== *)

Lemma snapshot_key_inj slot slot' :
  snapshot_key slot = snapshot_key slot' → slot = slot'.
Proof. by destruct slot, slot'. Qed.

Lemma meta_key_inj slot slot' : meta_key slot = meta_key slot' → slot = slot'.
Proof. by destruct slot, slot'. Qed.

(** Round trip of a snapshot: a write that lands is what the next read of
    that slot returns, and the reads of the other slots are as before. *)
Theorem saveSnapshot_loadSnapshot (f f' : Faults) (slot : SnapshotSlot)
    (snapshot : LocalSnapshot) (db : IDB) :
  put_fault f (snapshot_key slot) = None →
  get_fault f' (snapshot_key slot) = None →
  loadSnapshot f' slot (saveSnapshot f slot snapshot db).2 = Some snapshot ∧
  ∀ slot', slot' ≠ slot →
    loadSnapshot f' slot' (saveSnapshot f slot snapshot db).2
    = loadSnapshot f' slot' db.
Proof.
  intros Hput Hget. rewrite (saveSnapshot_ok _ _ _ _ Hput); cbn. split.
  - unfold loadSnapshot; cbn. by rewrite Hget, lookup_insert_eq.
  - intros slot' Hne. unfold loadSnapshot; cbn.
    destruct (get_fault f' (snapshot_key slot')); [done|].
    rewrite lookup_insert_ne; [done|].
    intros Heq. by apply Hne, snapshot_key_inj.
Qed.

Lemma saveSnapshot_loadSnapshot_witness :
  put_fault no_faults (snapshot_key snapshot_lastPush) = None ∧
  get_fault no_faults (snapshot_key snapshot_lastPush) = None ∧
  loadSnapshot no_faults snapshot_lastPush
    (saveSnapshot no_faults snapshot_lastPush
       (snapshot_of_pull Samples.pull_1000) empty_db).2
  = Some (snapshot_of_pull Samples.pull_1000).
Proof.
  split; [reflexivity|]. split; [reflexivity|].
  exact (proj1 (saveSnapshot_loadSnapshot no_faults no_faults
                  snapshot_lastPush (snapshot_of_pull Samples.pull_1000)
                  empty_db eq_refl eq_refl)).
Defined.

(** Round trip of the metadata: a version written under
    [meta:baseVersion] and a timestamp written under one of the two
    timestamp keys read back as written. *)
Theorem saveMeta_loadMeta (f f' : Faults) (slot : MetaSlot) (db : IDB) :
  put_fault f (meta_key slot) = None →
  get_fault f' (meta_key slot) = None →
  (∀ n, as_number (loadMeta f' slot (saveMeta f slot (MetaNumber n) db).2)
        = Some n) ∧
  (∀ s, as_string (loadMeta f' slot (saveMeta f slot (MetaString s) db).2)
        = Some s) ∧
  (∀ v slot', slot' ≠ slot →
     loadMeta f' slot' (saveMeta f slot v db).2 = loadMeta f' slot' db).
Proof.
  intros Hput Hget. repeat split.
  - intros n. rewrite (saveMeta_ok _ _ _ _ Hput). unfold loadMeta; cbn.
    by rewrite Hget, lookup_insert_eq.
  - intros s. rewrite (saveMeta_ok _ _ _ _ Hput). unfold loadMeta; cbn.
    by rewrite Hget, lookup_insert_eq.
  - intros v slot' Hne. rewrite (saveMeta_ok _ _ _ _ Hput).
    unfold loadMeta; cbn.
    destruct (get_fault f' (meta_key slot')); [done|].
    rewrite lookup_insert_ne; [done|].
    intros Heq. by apply Hne, meta_key_inj.
Qed.

Lemma saveMeta_loadMeta_witness :
  put_fault no_faults (meta_key meta_baseVersion) = None ∧
  get_fault no_faults (meta_key meta_baseVersion) = None ∧
  as_number (loadMeta no_faults meta_baseVersion
               (saveMeta no_faults meta_baseVersion (MetaNumber 1000)
                  empty_db).2) = Some 1000.
Proof.
  split; [reflexivity|]. split; [reflexivity|].
  destruct (saveMeta_loadMeta no_faults no_faults meta_baseVersion empty_db
              eq_refl eq_refl) as (Hn & _ & _).
  exact (Hn 1000).
Defined.

(** [saveAfterPull] is not all-or-nothing: each of its four writes lands or
    fails on its own.  After the call every key holds the new value when its
    own request went through and its old value otherwise, and the call
    resolves exactly when all four went through. *)
Theorem saveAfterPull_each_write (f : Faults) (snapshot : LocalSnapshot)
    (db : IDB) :
  let r := saveAfterPull f snapshot db in
  snapshots r.2 !! "snapshot:origin"
  = landed f "snapshot:origin" snapshot (snapshots db !! "snapshot:origin") ∧
  snapshots r.2 !! "snapshot:current"
  = landed f "snapshot:current" snapshot (snapshots db !! "snapshot:current") ∧
  meta r.2 !! "meta:lastPullAt"
  = landed f "meta:lastPullAt" (MetaString (savedAt snapshot))
      (meta db !! "meta:lastPullAt") ∧
  meta r.2 !! "meta:baseVersion"
  = landed f "meta:baseVersion" (MetaNumber (snap_baseVersion snapshot))
      (meta db !! "meta:baseVersion") ∧
  (r.1 = Returns () ↔
   puts_land f ["snapshot:origin"; "snapshot:current";
                "meta:lastPullAt"; "meta:baseVersion"]).
Proof.
  intros r. subst r.
  split; [|split; [|split; [|split; [|apply saveAfterPull_returns_iff]]]];
    unfold saveAfterPull, saveSnapshot, saveMeta, landed; cbn;
    destruct (put_fault f "snapshot:origin"),
             (put_fault f "snapshot:current"),
             (put_fault f "meta:lastPullAt"),
             (put_fault f "meta:baseVersion"); cbn; by simplify_map_eq.
Qed.

(** The same for [saveAfterPush]. *)
Theorem saveAfterPush_each_write (f : Faults) (snapshot : LocalSnapshot)
    (pushedAt : string) (newVersion : Z) (db : IDB) :
  let stamped :=
    {| savedAt := pushedAt; snap_baseVersion := newVersion;
       snap_rules := snap_rules snapshot; snap_tags := snap_tags snapshot |} in
  let r := saveAfterPush f snapshot pushedAt newVersion db in
  snapshots r.2 !! "snapshot:lastPush"
  = landed f "snapshot:lastPush" stamped (snapshots db !! "snapshot:lastPush") ∧
  snapshots r.2 !! "snapshot:current"
  = landed f "snapshot:current" stamped (snapshots db !! "snapshot:current") ∧
  meta r.2 !! "meta:lastPushAt"
  = landed f "meta:lastPushAt" (MetaString pushedAt)
      (meta db !! "meta:lastPushAt") ∧
  meta r.2 !! "meta:baseVersion"
  = landed f "meta:baseVersion" (MetaNumber newVersion)
      (meta db !! "meta:baseVersion") ∧
  (r.1 = Returns () ↔
   puts_land f ["snapshot:lastPush"; "snapshot:current";
                "meta:lastPushAt"; "meta:baseVersion"]).
Proof.
  intros stamped r. subst r stamped.
  split; [|split; [|split; [|split; [|apply saveAfterPush_returns_iff]]]];
    unfold saveAfterPush, saveSnapshot, saveMeta, landed; cbn;
    destruct (put_fault f "snapshot:lastPush"),
             (put_fault f "snapshot:current"),
             (put_fault f "meta:lastPushAt"),
             (put_fault f "meta:baseVersion"); cbn; by simplify_map_eq.
Qed.

(** What the composite writes never touch, whatever fails: [saveAfterPull]
    leaves the lastPush slot and [meta:lastPushAt] alone, [saveAfterPush]
    leaves the origin slot and [meta:lastPullAt] alone. *)
Theorem composite_writes_frame (f : Faults) (snapshot : LocalSnapshot)
    (pushedAt : string) (newVersion : Z) (db : IDB) :
  let pulled := (saveAfterPull f snapshot db).2 in
  let pushed := (saveAfterPush f snapshot pushedAt newVersion db).2 in
  snapshots pulled !! "snapshot:lastPush" = snapshots db !! "snapshot:lastPush" ∧
  meta pulled !! "meta:lastPushAt" = meta db !! "meta:lastPushAt" ∧
  snapshots pushed !! "snapshot:origin" = snapshots db !! "snapshot:origin" ∧
  meta pushed !! "meta:lastPullAt" = meta db !! "meta:lastPullAt".
Proof.
  cbn zeta. rewrite saveAfterPull_db, saveAfterPush_db; cbn zeta.
  repeat split.
  - rewrite !saveMeta_snapshots.
    rewrite (saveSnapshot_frame _ snapshot_current) by done.
    by rewrite (saveSnapshot_frame _ snapshot_origin).
  - rewrite (saveMeta_frame _ meta_baseVersion) by done.
    rewrite (saveMeta_frame _ meta_lastPullAt) by done.
    by rewrite !saveSnapshot_meta.
  - rewrite !saveMeta_snapshots.
    rewrite (saveSnapshot_frame _ snapshot_current) by done.
    by rewrite (saveSnapshot_frame _ snapshot_lastPush).
  - rewrite (saveMeta_frame _ meta_baseVersion) by done.
    rewrite (saveMeta_frame _ meta_lastPushAt) by done.
    by rewrite !saveSnapshot_meta.
Qed.

(** A pull followed by a push, all writes landing: the origin slot still
    holds the pulled snapshot and [meta:lastPullAt] its time, the current
    and lastPush slots hold the pushed snapshot under the new version, and
    [meta:baseVersion] has moved to the new version. *)
Theorem saveAfterPull_then_saveAfterPush (f1 f2 : Faults)
    (pulled pushed : LocalSnapshot) (pushedAt : string) (newVersion : Z)
    (db : IDB) :
  puts_land f1 ["snapshot:origin"; "snapshot:current";
                "meta:lastPullAt"; "meta:baseVersion"] →
  puts_land f2 ["snapshot:lastPush"; "snapshot:current";
                "meta:lastPushAt"; "meta:baseVersion"] →
  let stamped :=
    {| savedAt := pushedAt; snap_baseVersion := newVersion;
       snap_rules := snap_rules pushed; snap_tags := snap_tags pushed |} in
  let db' :=
    (saveAfterPush f2 pushed pushedAt newVersion
       (saveAfterPull f1 pulled db).2).2 in
  snapshots db' !! "snapshot:origin" = Some pulled ∧
  snapshots db' !! "snapshot:current" = Some stamped ∧
  snapshots db' !! "snapshot:lastPush" = Some stamped ∧
  meta db' !! "meta:lastPullAt" = Some (MetaString (savedAt pulled)) ∧
  meta db' !! "meta:lastPushAt" = Some (MetaString pushedAt) ∧
  meta db' !! "meta:baseVersion" = Some (MetaNumber newVersion).
Proof.
  rewrite !puts_land_cons.
  intros (Ho & Hc & Hp & Hb & _) (Hl' & Hc' & Hp' & Hb' & _).
  unfold saveAfterPull, saveAfterPush, saveSnapshot, saveMeta; cbn.
  rewrite Ho, Hc, Hp, Hb; cbn. rewrite Hl', Hc', Hp', Hb'; cbn.
  by simplify_map_eq.
Qed.

Lemma saveAfterPull_then_saveAfterPush_witness :
  puts_land no_faults ["snapshot:origin"; "snapshot:current";
                       "meta:lastPullAt"; "meta:baseVersion"] ∧
  puts_land no_faults ["snapshot:lastPush"; "snapshot:current";
                       "meta:lastPushAt"; "meta:baseVersion"] ∧
  let db' :=
    (saveAfterPush no_faults (snapshot_of_pull Samples.pull_1000)
       "2026-01-24T08:00:00.000Z" 1006
       (saveAfterPull no_faults (snapshot_of_pull Samples.pull_1000)
          empty_db).2).2 in
  snapshots db' !! "snapshot:origin"
  = Some (snapshot_of_pull Samples.pull_1000) ∧
  meta db' !! "meta:baseVersion" = Some (MetaNumber 1006).
Proof.
  split; [apply puts_land_no_faults|]. split; [apply puts_land_no_faults|].
  destruct (saveAfterPull_then_saveAfterPush no_faults no_faults
              (snapshot_of_pull Samples.pull_1000)
              (snapshot_of_pull Samples.pull_1000)
              "2026-01-24T08:00:00.000Z" 1006 empty_db
              (puts_land_no_faults _) (puts_land_no_faults _))
    as (Ho & _ & _ & _ & _ & Hb).
  split; [exact Ho | exact Hb].
Defined.

Lemma loadSnapshot_empty f slot : loadSnapshot f slot empty_db = None.
Proof. unfold loadSnapshot. by destruct (get_fault f (snapshot_key slot)). Qed.

Lemma loadMeta_empty f slot : loadMeta f slot empty_db = None.
Proof. unfold loadMeta. by destruct (get_fault f (meta_key slot)). Qed.

(** [clearAll] is one transaction: when it fails it throws and the database
    is as before; when it goes through every snapshot slot and every
    metadata key reads as absent, and the next start hydrates from nothing:
    the state is the initial one, marked hydrated. *)
Theorem clearAll_resets (f : Faults) (db : IDB) :
  match clear_fault f with
  | Some msg => clearAll f db = (Throws (StorageFailure msg), db)
  | None =>
      (clearAll f db).1 = Returns () ∧
      (∀ f' slot, loadSnapshot f' slot (clearAll f db).2 = None) ∧
      (∀ f' slot, loadMeta f' slot (clearAll f db).2 = None) ∧
      (∀ f' loadedAt,
         hydrate f' (initialState loadedAt, (clearAll f db).2)
         = (Returns (),
            ({| rules := []; tags := EMPTY_TAG_DATA loadedAt;
                baseVersion := None; lastPullAt := None; lastPushAt := None;
                isLoading := false; isHydrated := true; error := None |},
             empty_db)))
  end.
Proof.
  unfold clearAll. destruct (clear_fault f) as [msg|]; [done|]; cbn [fst snd].
  split; [done|]. split; [apply loadSnapshot_empty|].
  split; [apply loadMeta_empty|].
  intros f' loadedAt. unfold hydrate.
  by rewrite loadSnapshot_empty, !loadMeta_empty.
Qed.

(* ===================================================================== *)
(** * Store: hydrate, pull and persistence, further properties            *)
(* ===================================================================== *)

(** A store that cannot be read never blocks the start: [hydrate] resolves
    with the rules and tags it found in memory, no version and no
    timestamps, marked hydrated, and leaves the database alone. *)
Theorem hydrate_unreadable (f : Faults) (st : DataState) (db : IDB) :
  (∀ key, get_fault f key ≠ None) →
  hydrate f (st, db)
  = (Returns (),
     ({| rules := rules st; tags := tags st; baseVersion := None;
         lastPullAt := None; lastPushAt := None; isLoading := isLoading st;
         isHydrated := true; error := error st |}, db)).
Proof.
  intros Hf. unfold hydrate, loadSnapshot, loadMeta.
  destruct (get_fault f (snapshot_key snapshot_current)) eqn:H1;
    [|by apply Hf in H1].
  destruct (get_fault f (meta_key meta_lastPullAt)) eqn:H2;
    [|by apply Hf in H2].
  destruct (get_fault f (meta_key meta_lastPushAt)) eqn:H3;
    [|by apply Hf in H3].
  destruct (get_fault f (meta_key meta_baseVersion)) eqn:H4;
    [|by apply Hf in H4].
  done.
Qed.

Lemma hydrate_unreadable_witness :
  let broken :=
    {| put_fault := λ _, None; get_fault := λ _, Some "InvalidStateError";
       clear_fault := None |} in
  (∀ key, get_fault broken key ≠ None) ∧
  (hydrate broken (initialState Samples.clock, empty_db)).1 = Returns () ∧
  isHydrated (hydrate broken (initialState Samples.clock, empty_db)).2.1
  = true ∧
  baseVersion (hydrate broken (initialState Samples.clock, empty_db)).2.1
  = None.
Proof.
  intros broken.
  assert (H : ∀ key, get_fault broken key ≠ None) by (intros key; discriminate).
  split; [exact H|].
  rewrite (hydrate_unreadable broken (initialState Samples.clock) empty_db H).
  by repeat split.
Defined.

(** What [hydrate] prefers when the current slot reads back a snapshot:
    the version is the snapshot's, whatever [meta:baseVersion] holds; the
    pull time is [meta:lastPullAt] when it is there and the snapshot's
    [savedAt] only otherwise. *)
Theorem hydrate_precedence (f : Faults) (st : DataState) (db : IDB)
    (snapshot : LocalSnapshot) :
  loadSnapshot f snapshot_current db = Some snapshot →
  let st' := (hydrate f (st, db)).2.1 in
  baseVersion st' = Some (snap_baseVersion snapshot) ∧
  (∀ t, as_string (loadMeta f meta_lastPullAt db) = Some t →
        lastPullAt st' = Some t) ∧
  (as_string (loadMeta f meta_lastPullAt db) = None →
   lastPullAt st' = Some (savedAt snapshot)) ∧
  lastPushAt st' = as_string (loadMeta f meta_lastPushAt db).
Proof.
  intros H. unfold hydrate. rewrite H; cbn.
  repeat split; [intros t Ht | intros Ht]; by rewrite Ht.
Qed.

Lemma hydrate_precedence_witness :
  let db :=
    {| snapshots := {[ "snapshot:current" := snapshot_of_pull Samples.pull_1000 ]};
       meta := {[ "meta:baseVersion" := MetaNumber 999 ]} |} in
  loadSnapshot no_faults snapshot_current db
  = Some (snapshot_of_pull Samples.pull_1000) ∧
  baseVersion (hydrate no_faults (initialState Samples.clock, db)).2.1
  = Some 1000 ∧
  lastPullAt (hydrate no_faults (initialState Samples.clock, db)).2.1
  = Some Samples.clock.
Proof.
  intros db.
  assert (H : loadSnapshot no_faults snapshot_current db
              = Some (snapshot_of_pull Samples.pull_1000)) by reflexivity.
  split; [exact H|].
  destruct (hydrate_precedence no_faults (initialState Samples.clock) db _ H)
    as (Hv & _ & Ht & _).
  split; [exact Hv|]. exact (Ht eq_refl).
Defined.

Lemma idb_eq (db1 db2 : IDB) :
  (∀ k, snapshots db1 !! k = snapshots db2 !! k) →
  (∀ k, meta db1 !! k = meta db2 !! k) →
  db1 = db2.
Proof.
  destruct db1 as [s1 m1], db2 as [s2 m2]; cbn. intros Hs Hm.
  f_equal; by apply map_eq.
Qed.

(** Writing the same snapshot twice leaves the database the first write
    left. *)
Lemma saveAfterPull_twice f snapshot db :
  (saveAfterPull f snapshot (saveAfterPull f snapshot db).2).2
  = (saveAfterPull f snapshot db).2.
Proof.
  unfold saveAfterPull, saveSnapshot, saveMeta.
  destruct (put_fault f (snapshot_key snapshot_origin)),
           (put_fault f (snapshot_key snapshot_current)),
           (put_fault f (meta_key meta_lastPullAt)),
           (put_fault f (meta_key meta_baseVersion)); cbn;
    apply idb_eq; cbn; intros k;
    rewrite ?lookup_insert; repeat case_decide; done.
Qed.

Lemma saveAfterPull_completion f snapshot db db' :
  (saveAfterPull f snapshot db).1 = (saveAfterPull f snapshot db').1.
Proof.
  unfold saveAfterPull, saveSnapshot, saveMeta.
  by destruct (put_fault f (snapshot_key snapshot_origin)),
              (put_fault f (snapshot_key snapshot_current)),
              (put_fault f (meta_key meta_lastPullAt)),
              (put_fault f (meta_key meta_baseVersion)).
Qed.

Lemma pull_resolved_eq pullRes f st db :
  pull (Resolved pullRes) f (st, db)
  = match (saveAfterPull f (snapshot_of_pull pullRes) db).1 with
    | Returns _ =>
        (Returns (),
         (installed pullRes st,
          (saveAfterPull f (snapshot_of_pull pullRes) db).2))
    | Throws e =>
        (Throws e,
         (after_catch e (installed pullRes st),
          (saveAfterPull f (snapshot_of_pull pullRes) db).2))
    end.
Proof.
  unfold pull; cbn [pullData request]. fold (snapshot_of_pull pullRes).
  by destruct (saveAfterPull f (snapshot_of_pull pullRes) db) as [[[]|e] db'].
Qed.

(** [pull] is idempotent: run a second time against the same answer of the
    server and the same behaviour of the store, it settles the same way and
    leaves the same in-memory state and the same database as the first
    run. *)
Theorem pull_idempotent (net : Transport PullResponse) (f : Faults)
    (w : World) :
  pull net f (pull net f w).2 = pull net f w.
Proof.
  destruct w as [st db]. destruct net as [pullRes|e]; [|done].
  rewrite (pull_resolved_eq pullRes f st db).
  destruct (saveAfterPull f (snapshot_of_pull pullRes) db).1 as [[]|e] eqn:Hc;
    cbn [snd]; rewrite pull_resolved_eq, saveAfterPull_twice;
    rewrite (saveAfterPull_completion f _ _ db), Hc; done.
Qed.

(** A CRUD action is its synchronous edit followed by [persistCurrent] on
    the edited state. *)
Lemma run_op_crud op st db :
  is_crud op = true →
  run_op op (st, db)
  = (persistCurrent (op_faults op) (op_now op) (edit op st, db)).2.
Proof. by destruct op. Qed.

Lemma edit_same_session op st : same_session st (edit op st).
Proof. by destruct op. Qed.

Lemma persistCurrent_based_db f now st db v :
  baseVersion st = Some v →
  (persistCurrent f now (st, db)).2.2
  = (saveSnapshot f snapshot_current (snapshot_of_state now v st) db).2.
Proof. intros H. unfold persistCurrent. by rewrite H. Qed.

Lemma saveSnapshot_landed f slot snapshot db :
  snapshots (saveSnapshot f slot snapshot db).2 !! snapshot_key slot
  = landed f (snapshot_key slot) snapshot (snapshots db !! snapshot_key slot).
Proof.
  unfold saveSnapshot, landed.
  destruct (put_fault f (snapshot_key slot)); cbn; [done|].
  by rewrite lookup_insert_eq.
Qed.

(** Once a version is known, [persistCurrent] writes the in-memory rules
    and tags, stamped with the in-memory [baseVersion] and the current
    time, to the current slot and to nothing else; when the write fails the
    slot keeps its old content.  Either way the call resolves and the
    in-memory state is untouched. *)
Theorem persistCurrent_based (f : Faults) (now : string) (st : DataState)
    (db : IDB) (v : Z) :
  baseVersion st = Some v →
  let r := persistCurrent f now (st, db) in
  r.1 = Returns () ∧
  r.2.1 = st ∧
  snapshots r.2.2 !! "snapshot:current"
  = landed f "snapshot:current" (snapshot_of_state now v st)
      (snapshots db !! "snapshot:current") ∧
  (∀ key, key ≠ "snapshot:current" →
     snapshots r.2.2 !! key = snapshots db !! key) ∧
  meta r.2.2 = meta db.
Proof.
  intros Hv r. subst r.
  split; [apply persistCurrent_returns|].
  split; [apply persistCurrent_state|].
  split; [|split].
  - rewrite (persistCurrent_based_db _ _ _ _ _ Hv).
    apply (saveSnapshot_landed f snapshot_current).
  - intros key Hkey. by apply persistCurrent_frame.
  - apply persistCurrent_meta.
Qed.

Lemma persistCurrent_based_witness :
  let quota :=
    {| put_fault := λ _, Some "QuotaExceededError"; get_fault := λ _, None;
       clear_fault := None |} in
  baseVersion Samples.ready = Some 1000 ∧
  (persistCurrent quota Samples.clock (Samples.ready, empty_db)).1
  = Returns () ∧
  snapshots (persistCurrent quota Samples.clock (Samples.ready, empty_db)).2.2
    !! "snapshot:current" = None ∧
  snapshots
    (persistCurrent no_faults Samples.clock (Samples.ready, empty_db)).2.2
    !! "snapshot:current"
  = Some (snapshot_of_state Samples.clock 1000 Samples.ready).
Proof.
  intros quota. split; [reflexivity|].
  destruct (persistCurrent_based quota Samples.clock Samples.ready empty_db
              1000 eq_refl) as (Hr & _ & Hq & _).
  destruct (persistCurrent_based no_faults Samples.clock Samples.ready
              empty_db 1000 eq_refl) as (_ & _ & Hn & _).
  split; [exact Hr|]. split; [exact Hq | exact Hn].
Defined.

(** The current slot after a CRUD action run on a based state. *)
Lemma run_op_crud_current op st db v :
  is_crud op = true →
  baseVersion st = Some v →
  (run_op op (st, db)).1 = edit op st ∧
  snapshots (run_op op (st, db)).2 !! "snapshot:current"
  = landed (op_faults op) "snapshot:current"
      (snapshot_of_state (op_now op) v (edit op st))
      (snapshots db !! "snapshot:current").
Proof.
  intros Hop Hv. rewrite (run_op_crud _ _ _ Hop).
  assert (Hv' : baseVersion (edit op st) = Some v).
  { destruct (edit_same_session op st) as [-> _]. done. }
  split; [apply persistCurrent_state|].
  rewrite (persistCurrent_based_db _ _ _ _ _ Hv').
  apply (saveSnapshot_landed _ snapshot_current).
Qed.

(** Every CRUD action persists what it has just put in memory: when its
    write lands, the current slot holds exactly the rules, tags and version
    of the in-memory state after the action. *)
Theorem crud_persists_memory (op : LocalOp) (st : DataState) (db : IDB)
    (v : Z) :
  is_crud op = true →
  baseVersion st = Some v →
  put_fault (op_faults op) "snapshot:current" = None →
  let w' := run_op op (st, db) in
  ∃ snapshot,
    snapshots w'.2 !! "snapshot:current" = Some snapshot ∧
    snap_rules snapshot = rules w'.1 ∧
    snap_tags snapshot = tags w'.1 ∧
    Some (snap_baseVersion snapshot) = baseVersion w'.1 ∧
    savedAt snapshot = op_now op.
Proof.
  intros Hop Hv Hput w'. subst w'.
  destruct (run_op_crud_current op st db v Hop Hv) as [Hst Hcur].
  rewrite Hcur, Hst. unfold landed. rewrite Hput.
  eexists; split; [done|]; cbn.
  destruct (edit_same_session op st) as [-> _]. by rewrite Hv.
Qed.

Lemma crud_persists_memory_witness :
  let op := OpAddRule no_faults "2026-01-24T08:00:00.000Z"
              (Samples.rule "G1.B.2") in
  is_crud op = true ∧
  baseVersion Samples.ready = Some 1000 ∧
  put_fault (op_faults op) "snapshot:current" = None ∧
  ∃ snapshot,
    snapshots (run_op op (Samples.ready, empty_db)).2 !! "snapshot:current"
    = Some snapshot ∧
    snap_rules snapshot = [Samples.rule "G1.A.1"; Samples.rule "G1.B.2"].
Proof.
  intros op.
  split; [reflexivity|]. split; [reflexivity|]. split; [reflexivity|].
  destruct (crud_persists_memory op Samples.ready empty_db 1000
              eq_refl eq_refl eq_refl) as (snapshot & Hs & Hr & _).
  exists snapshot. split; [exact Hs | exact Hr].
Defined.

(** Local edits survive a restart: after a CRUD action whose write landed,
    [hydrate] run from the initial state (the current slot being readable)
    restores the rules, tags and version that were in memory after the
    action. *)
Theorem edits_survive_restart (op : LocalOp) (st : DataState) (db : IDB)
    (v : Z) (f_boot : Faults) (loadedAt : string) :
  is_crud op = true →
  baseVersion st = Some v →
  put_fault (op_faults op) "snapshot:current" = None →
  get_fault f_boot "snapshot:current" = None →
  let w' := run_op op (st, db) in
  let booted := (hydrate f_boot (initialState loadedAt, w'.2)).2.1 in
  rules booted = rules w'.1 ∧
  tags booted = tags w'.1 ∧
  baseVersion booted = baseVersion w'.1.
Proof.
  intros Hop Hv Hput Hget w' booted. subst booted w'.
  destruct (run_op_crud_current op st db v Hop Hv) as [Hst Hcur].
  unfold landed in Hcur. rewrite Hput in Hcur.
  assert (Hload : loadSnapshot f_boot snapshot_current (run_op op (st, db)).2
                  = Some (snapshot_of_state (op_now op) v (edit op st))).
  { unfold loadSnapshot; cbn. by rewrite Hget. }
  destruct (hydrate_from_snapshot f_boot (initialState loadedAt) _ _ Hload)
    as (Hr & Ht & Hb & _).
  rewrite Hr, Ht, Hb, Hst; cbn.
  destruct (edit_same_session op st) as [-> _]. by rewrite Hv.
Qed.

Lemma edits_survive_restart_witness :
  let op := OpDeleteRule no_faults "2026-01-24T08:00:00.000Z" "G1.A.1" in
  is_crud op = true ∧
  baseVersion Samples.ready = Some 1000 ∧
  put_fault (op_faults op) "snapshot:current" = None ∧
  get_fault no_faults "snapshot:current" = None ∧
  rules (hydrate no_faults
           (initialState Samples.clock,
            (run_op op (Samples.ready, empty_db)).2)).2.1 = [].
Proof.
  intros op.
  split; [reflexivity|]. split; [reflexivity|].
  split; [reflexivity|]. split; [reflexivity|].
  exact (proj1 (edits_survive_restart op Samples.ready empty_db 1000
                  no_faults Samples.clock eq_refl eq_refl eq_refl eq_refl)).
Defined.

(* ===================================================================== *)
(** * Store: invariants of local editing                                  *)
(* ===================================================================== *)

Lemma same_session_refl st : same_session st st.
Proof. by repeat split. Qed.

Lemma same_session_trans st1 st2 st3 :
  same_session st1 st2 → same_session st2 st3 → same_session st1 st3.
Proof.
  unfold same_session.
  intros (-> & -> & -> & -> & -> & ->) (-> & -> & -> & -> & -> & ->).
  by repeat split.
Qed.

Lemma run_op_crud_frame op st db :
  is_crud op = true →
  same_session st (run_op op (st, db)).1 ∧
  meta (run_op op (st, db)).2 = meta db ∧
  snapshots (run_op op (st, db)).2 !! "snapshot:lastPush"
  = snapshots db !! "snapshot:lastPush".
Proof.
  intros Hop. rewrite (run_op_crud _ _ _ Hop).
  rewrite persistCurrent_state, persistCurrent_meta.
  split; [apply edit_same_session|]. split; [done|].
  by apply persistCurrent_frame.
Qed.

(** Local editing never moves the session: whatever CRUD actions run, the
    in-memory [baseVersion], the two timestamps and the loading, hydrated
    and error fields stay as they were in memory, and in the database the
    whole metadata store (so [meta:baseVersion]) and the lastPush slot stay
    as they were. *)
Theorem crud_keeps_session (ops : list LocalOp) (st : DataState) (db : IDB) :
  Forall (λ op, is_crud op = true) ops →
  same_session st (run_ops ops (st, db)).1 ∧
  meta (run_ops ops (st, db)).2 = meta db ∧
  snapshots (run_ops ops (st, db)).2 !! "snapshot:lastPush"
  = snapshots db !! "snapshot:lastPush".
Proof.
  intros Hops. revert st db.
  induction Hops as [|op ops Hop _ IH]; intros st db.
  { split; [apply same_session_refl|done]. }
  cbn [run_ops].
  destruct (run_op_crud_frame op st db Hop) as (Hs & Hm & Hl).
  destruct (run_op op (st, db)) as [st1 db1]; cbn [fst snd] in *.
  destruct (IH st1 db1) as (Hs' & Hm' & Hl').
  split; [by eapply same_session_trans|].
  split; [by rewrite Hm' | by rewrite Hl'].
Qed.

Lemma crud_keeps_session_witness :
  let ops := [OpAddRule no_faults Samples.clock (Samples.rule "G1.B.2");
              OpSetTags no_faults Samples.clock (EMPTY_TAG_DATA "later")] in
  Forall (λ op, is_crud op = true) ops ∧
  baseVersion (run_ops ops (Samples.ready, empty_db)).1 = Some 1000 ∧
  meta (run_ops ops (Samples.ready, empty_db)).2 = ∅.
Proof.
  intros ops.
  assert (H : Forall (λ op, is_crud op = true) ops) by by repeat constructor.
  split; [exact H|].
  destruct (crud_keeps_session ops Samples.ready empty_db H)
    as ((Hv & _) & Hm & _).
  split; [exact Hv | exact Hm].
Defined.




(* ===================================================================== *)
(** * Store: the rule list, further properties                            *)
(* ===================================================================== *)

Lemma filter_all {A} (P : A → Prop) `{∀ x, Decision (P x)} (l : list A) :
  Forall P l → filter P l = l.
Proof.
  induction 1 as [|x l Hx _ IH]; [done|].
  by rewrite filter_cons_True, IH.
Qed.


Lemma addRule_rules f now rule w :
  rules (addRule f now rule w).2.1 = rules w.1 ++ [rule].
Proof. destruct w. by rewrite addRule_state. Qed.

Lemma deleteRule_rules f now id w :
  rules (deleteRule f now id w).2.1 = filter (λ r, ruleId r ≠ id) (rules w.1).
Proof. destruct w. by rewrite deleteRule_state. Qed.

Lemma updateRule_rules f now id updates w :
  rules (updateRule f now id updates w).2.1
  = (λ r, if decide (ruleId r = id) then spread_rule r updates else r)
      <$> rules w.1.
Proof. destruct w. by rewrite updateRule_state. Qed.




(** Adding a rule under a fresh id and deleting that id again gives back
    the list as it was. *)
Theorem addRule_then_deleteRule (f f' : Faults) (now now' : string)
    (r : Rule) (st : DataState) (db : IDB) :
  Forall (λ r0, ruleId r0 ≠ ruleId r) (rules st) →
  rules (deleteRule f' now' (ruleId r) (addRule f now r (st, db)).2).2.1
  = rules st.
Proof.
  intros Hfresh.
  rewrite deleteRule_rules, addRule_rules; cbn [fst].
  rewrite filter_app, (filter_all _ _ Hfresh).
  rewrite filter_cons_False by (intros H; by apply H).
  by rewrite filter_nil, app_nil_r.
Qed.

Lemma addRule_then_deleteRule_witness :
  Forall (λ r0, ruleId r0 ≠ ruleId (Samples.rule "G1.B.2"))
    (rules Samples.ready) ∧
  rules (deleteRule no_faults Samples.clock "G1.B.2"
           (addRule no_faults Samples.clock (Samples.rule "G1.B.2")
              (Samples.ready, empty_db)).2).2.1
  = [Samples.rule "G1.A.1"].
Proof.
  assert (H : Forall (λ r0, ruleId r0 ≠ ruleId (Samples.rule "G1.B.2"))
                (rules Samples.ready)).
  { repeat constructor; discriminate. }
  split; [exact H|].
  exact (addRule_then_deleteRule no_faults no_faults Samples.clock
           Samples.clock (Samples.rule "G1.B.2") Samples.ready empty_db H).
Defined.

Lemma spread_field_idem {A} (a : A) (p : option A) :
  spread_field (spread_field a p) p = spread_field a p.
Proof. by destruct p. Qed.

Lemma spread_rule_idem (r : Rule) (u : PartialRule) :
  spread_rule (spread_rule r u) u = spread_rule r u.
Proof. unfold spread_rule; cbn. f_equal; apply spread_field_idem. Qed.

(** [updateRule] keeps the list in shape: same length, and at every
    position the rule that was there, patched when it carries the id (so
    every duplicate of the id is patched) and untouched otherwise. *)
Theorem updateRule_positions (f : Faults) (now : string) (id : string)
    (updates : PartialRule) (st : DataState) (db : IDB) :
  let rules' := rules (updateRule f now id updates (st, db)).2.1 in
  length rules' = length (rules st) ∧
  (∀ i r, rules st !! i = Some r → ruleId r = id →
          rules' !! i = Some (spread_rule r updates)) ∧
  (∀ i r, rules st !! i = Some r → ruleId r ≠ id → rules' !! i = Some r).
Proof.
  intros rules'. subst rules'. rewrite updateRule_rules; cbn [fst].
  split; [apply length_fmap|].
  split; intros i r Hi Hid; rewrite list_lookup_fmap, Hi; cbn.
  - by rewrite decide_True.
  - by rewrite decide_False.
Qed.

Lemma updateRule_positions_witness :
  let st :=
    set_rules [Samples.rule "G1.A.1"; Samples.rule "G1.B.2";
               Samples.rule "G1.A.1"] Samples.ready in
  rules st !! 2%nat = Some (Samples.rule "G1.A.1") ∧
  rules (updateRule no_faults Samples.clock "G1.A.1" empty_patch
           (st, empty_db)).2.1 !! 2%nat
  = Some (spread_rule (Samples.rule "G1.A.1") empty_patch).
Proof.
  intros st. split; [reflexivity|].
  destruct (updateRule_positions no_faults Samples.clock "G1.A.1" empty_patch
              st empty_db) as (_ & Hhit & _).
  exact (Hhit 2%nat (Samples.rule "G1.A.1") eq_refl eq_refl).
Defined.

(** The empty patch changes nothing, and applying any patch a second time
    changes nothing more. *)
Theorem updateRule_idempotent (f f' : Faults) (now now' : string)
    (id : string) (updates : PartialRule) (st : DataState) (db : IDB) :
  rules (updateRule f now id empty_patch (st, db)).2.1 = rules st ∧
  rules (updateRule f' now' id updates
           (updateRule f now id updates (st, db)).2).2.1
  = rules (updateRule f now id updates (st, db)).2.1.
Proof.
  rewrite !updateRule_rules; cbn [fst]. split.
  - rewrite <- (list_fmap_id (rules st)) at 2.
    apply list_fmap_ext. intros i r _; cbn.
    destruct (decide (ruleId r = id)); [apply spread_rule_empty|done].
  - rewrite <- list_fmap_compose. apply list_fmap_ext. intros i r _; cbn.
    destruct (decide (ruleId r = id)) as [Hr|Hr].
    + destruct (decide (ruleId (spread_rule r updates) = id));
        [apply spread_rule_idem|done].
    + by rewrite decide_False.
Qed.

Lemma updateRule_ruleIds_witness :
  UpdateRuleInput empty_patch ∧
  ruleId <$> rules (updateRule no_faults Samples.clock "G1.A.1" empty_patch
                      (Samples.ready, empty_db)).2.1
  = ["G1.A.1"].
Proof.
  split; [reflexivity|].
  exact (updateRule_ruleIds no_faults Samples.clock "G1.A.1" empty_patch
           Samples.ready empty_db eq_refl).
Defined.

(* ===================================================================== *)
(** * UI store: the notification queue                                    *)
(* ===================================================================== *)

Lemma pretty_N_go_dash_free (x : N) (s : string) :
  dash_free s → dash_free (pretty_N_go x s).
Proof.
  revert s. induction (N.lt_wf_0 x) as [x _ IH]; intros s Hs.
  assert (x = 0 ∨ 0 < x)%N as [->|Hx] by lia.
  - by rewrite pretty_N_go_0.
  - rewrite pretty_N_go_step by done. apply IH.
    { by apply N.div_lt. }
    split; [|done]. unfold pretty_N_char. by repeat case_match.
Qed.

Lemma pretty_N_dash_free (x : N) : dash_free (pretty x).
Proof.
  unfold pretty, pretty_N. case_decide; [by repeat split|].
  by apply pretty_N_go_dash_free.
Qed.

(** Two dash-free strings followed by a dash are equal when the texts they
    start are. *)
Lemma dash_free_prefix (a b s1 s2 : string) :
  dash_free a → dash_free b →
  a +:+ String "-" s1 = b +:+ String "-" s2 → a = b.
Proof.
  revert b. induction a as [|c a IH]; intros [|c' b] Ha Hb; cbn.
  - done.
  - intros [= <- _]. by destruct Hb as [? _].
  - intros [= -> _]. by destruct Ha as [? _].
  - intros [= -> Heq]. f_equal.
    destruct Ha as [_ Ha], Hb as [_ Hb]. by apply IH.
Qed.

(** Ids generated from different counter values differ, whatever the clock
    returned. *)
Lemma format_id_inj (c1 c2 : N) (t1 t2 : Z) :
  format_id c1 t1 = format_id c2 t2 → c1 = c2.
Proof.
  unfold format_id; cbn. intros [= Heq].
  apply dash_free_prefix in Heq; [|apply pretty_N_dash_free..].
  by apply (inj pretty).
Qed.

Lemma ids_filter (id : string) (l : list Notification) :
  notif_id <$> filter (λ n, notif_id n ≠ id) l
  = filter (λ x, x ≠ id) (notif_id <$> l).
Proof.
  induction l as [|n l IH]; [done|].
  rewrite fmap_cons, !filter_cons.
  destruct (decide (notif_id n ≠ id)); [|done].
  by rewrite fmap_cons, IH.
Qed.

Lemma ids_well_formed_initial : ids_well_formed ui_initial.
Proof. split; [apply NoDup_nil_2 | apply Forall_nil_2]. Qed.

Lemma removeNotification_well_formed id w :
  ids_well_formed w → ids_well_formed (removeNotification id w).
Proof.
  intros [Hnd Hall]. split; cbn.
  - rewrite ids_filter. by apply NoDup_filter.
  - apply Forall_forall. intros n [_ Hn]%list_elem_of_filter.
    by apply (proj1 (Forall_forall _ _) Hall).
Qed.

(** The id [addNotification] generates is carried by no notification of
    the queue. *)
Lemma fresh_id now w n :
  ids_well_formed w →
  n ∈ notifications (ui w) →
  notif_id n ≠ format_id (notificationIdCounter w + 1) now.
Proof.
  intros [_ Hall] Hn Heq.
  destruct (proj1 (Forall_forall _ _) Hall n Hn) as (c & t & Hid & Hc).
  rewrite Hid in Heq. apply format_id_inj in Heq. lia.
Qed.

Lemma addNotification_well_formed now notification w :
  ids_well_formed w → ids_well_formed (addNotification now notification w).1.
Proof.
  intros Hwf. pose proof Hwf as [Hnd Hall]. split; cbn.
  - rewrite fmap_app. apply NoDup_app. split; [done|]. split.
    + intros x [n [-> Hn]]%list_elem_of_fmap Hin.
      apply list_elem_of_singleton in Hin.
      by apply (fresh_id now w n Hwf Hn).
    + apply NoDup_singleton.
  - apply Forall_app. split.
    + eapply Forall_impl; [exact Hall|].
      intros n (c & t & Hid & Hc). exists c, t. split; [done|lia].
    + apply Forall_singleton. eexists _, _. split; [reflexivity|]. cbn. lia.
Qed.

Lemma run_ui_op_well_formed op w :
  ids_well_formed w → ids_well_formed (run_ui_op op w).
Proof.
  intros Hwf.
  destruct op; cbn [run_ui_op];
    try (by apply addNotification_well_formed);
    try (by apply removeNotification_well_formed);
    try (destruct Hwf; by split).
  split; [apply NoDup_nil_2 | apply Forall_nil_2].
Qed.

Lemma run_ui_ops_well_formed ops w :
  ids_well_formed w → ids_well_formed (run_ui_ops ops w).
Proof.
  revert w. induction ops as [|op ops IH]; intros w Hwf; [done|].
  cbn [run_ui_ops]. by apply IH, run_ui_op_well_formed.
Qed.

(** Notification ids are unique: whatever calls the UI store has received
    since it was created (timers that fired included), no two notifications
    of the queue carry the same id, even when the clock returned the same
    time for both. *)
Theorem notification_ids_unique (ops : list UiOp) :
  NoDup (notif_id <$> notifications (ui (run_ui_ops ops ui_initial))).
Proof.
  by destruct (run_ui_ops_well_formed ops ui_initial ids_well_formed_initial).
Qed.

Lemma filter_none {A} (P : A → Prop) `{∀ x, Decision (P x)} (l : list A) :
  Forall (λ x, ¬ P x) l → filter P l = [].
Proof.
  induction 1 as [|x l Hx _ IH]; [done|].
  by rewrite filter_cons_False.
Qed.

(** The timer that [addNotification] arms removes the notification it was
    armed for and no other: fired right away it gives back the queue as it
    was before the call.  Its delay is the notification's duration, 4000
    when none is given, and no timer is armed for a duration of [0] or
    less. *)
Theorem timer_removes_its_notification (ops : list UiOp) (now : Z)
    (notification : NotificationInput) :
  let w := run_ui_ops ops ui_initial in
  let r := addNotification now notification w in
  (r.2 = None ↔ default 4000 (in_duration notification) ≤ 0) ∧
  (∀ timer, r.2 = Some timer →
     delay timer = default 4000 (in_duration notification) ∧
     notifications (ui (removeNotification (target timer) r.1))
     = notifications (ui w)).
Proof.
  intros w r. subst r.
  pose proof (run_ui_ops_well_formed ops ui_initial ids_well_formed_initial)
    as Hwf.
  fold w in Hwf. unfold addNotification; cbn [generateId fst snd].
  split.
  - case_bool_decide; split; try done; lia.
  - intros timer. case_bool_decide; [|done]. intros [= <-]; cbn.
    split; [done|].
    rewrite filter_app, filter_all.
    + rewrite filter_cons_False by (intros H'; by apply H').
      by rewrite filter_nil, app_nil_r.
    + apply Forall_forall. intros n Hn. by apply fresh_id.
Qed.

Lemma timer_removes_its_notification_witness :
  let r := notifySuccess 1769164200000 "saved" None ui_initial in
  r.2 = Some {| delay := 4000; target := "notif-1-1769164200000" |} ∧
  notifications (ui (removeNotification "notif-1-1769164200000" r.1)) = [].
Proof.
  intros r.
  assert (H : r.2 = Some {| delay := 4000;
                            target := "notif-1-1769164200000" |})
    by by vm_compute.
  split; [exact H|].
  exact (proj2 (proj2 (timer_removes_its_notification [] 1769164200000
                         {| in_type := nt_success; in_title := "saved";
                            in_message := None; in_duration := None |}) _ H)).
Defined.

Lemma remove_unique_length {A B} `{EqDecision B} (g : A → B) (l : list A)
    (x : A) :
  NoDup (g <$> l) → x ∈ l →
  S (length (filter (λ y, g y ≠ g x) l)) = length l.
Proof.
  induction l as [|y l IH]; intros Hnd Hin; [by apply elem_of_nil in Hin|].
  rewrite fmap_cons in Hnd. apply NoDup_cons in Hnd as [Hy Hnd].
  apply elem_of_cons in Hin as [->|Hin].
  - rewrite filter_cons_False by (intros H; by apply H).
    rewrite filter_all; [done|].
    apply Forall_forall. intros z Hz Heq. apply Hy. rewrite <- Heq.
    by apply list_elem_of_fmap_2.
  - rewrite filter_cons_True.
    + cbn. by rewrite IH.
    + intros Heq. apply Hy. rewrite Heq. by apply list_elem_of_fmap_2.
Qed.

(** [removeNotification id] keeps exactly the notifications with another
    id, in their order; since ids are unique it removes one notification
    when the id is in the queue and none otherwise. *)
Theorem removeNotification_exact (ops : list UiOp) (id : string) :
  let w := run_ui_ops ops ui_initial in
  let w' := removeNotification id w in
  (∀ n, n ∈ notifications (ui w') ↔
        n ∈ notifications (ui w) ∧ notif_id n ≠ id) ∧
  (∀ n, n ∈ notifications (ui w) → notif_id n = id →
        S (length (notifications (ui w'))) = length (notifications (ui w))) ∧
  (Forall (λ n, notif_id n ≠ id) (notifications (ui w)) →
   notifications (ui w') = notifications (ui w)) ∧
  notificationIdCounter w' = notificationIdCounter w.
Proof.
  intros w w'. subst w'; cbn.
  split; [intros n; rewrite list_elem_of_filter; tauto|].
  split; [|split; [apply filter_all|done]].
  intros n Hn <-.
  apply (remove_unique_length notif_id); [|done].
  by destruct (run_ui_ops_well_formed ops ui_initial ids_well_formed_initial).
Qed.

Lemma removeNotification_exact_witness :
  let ops := [UiNotifySuccess 5 "a" None; UiNotifyError 5 "b" None] in
  let n := {| notif_id := "notif-1-5"; notif_type := nt_success;
              notif_title := "a"; notif_message := None;
              notif_duration := None |} in
  n ∈ notifications (ui (run_ui_ops ops ui_initial)) ∧
  S (length (notifications
               (ui (removeNotification "notif-1-5"
                      (run_ui_ops ops ui_initial)))))
  = length (notifications (ui (run_ui_ops ops ui_initial))).
Proof.
  intros ops n.
  assert (H : n ∈ notifications (ui (run_ui_ops ops ui_initial))).
  { vm_compute. apply list_elem_of_here. }
  split; [exact H|].
  destruct (removeNotification_exact ops "notif-1-5") as (_ & Hone & _).
  exact (Hone n H eq_refl).
Defined.

Lemma pushData_returns_iff_witness :
  error_status Samples.http_409_with_body = Some 409 ∧
  error_data Samples.http_409_with_body
  = Some (PushBody (PushConflict Samples.conflict_1005)) ∧
  pushData Samples.push_1000 (Rejected Samples.http_409_with_body)
  = Returns (PushBody (PushConflict Samples.conflict_1005)).
Proof.
  split; [reflexivity|]. split; [reflexivity|].
  apply (proj1 (pushData_returns_iff Samples.push_1000
                  (Rejected Samples.http_409_with_body))).
  right. exists Samples.http_409_with_body. by repeat split.
Defined.

Lemma push_guards_exclusive_witness :
  let body := {| ae_error := VERSION_CONFLICT; ae_message := "conflict" |} in
  ae_error body = VERSION_CONFLICT ∧
  isPushConflict (ErrorBody body) = true ∧
  isPushSuccess (ErrorBody body) = false.
Proof.
  intros body. split; [reflexivity|].
  destruct push_guards_exclusive as (_ & _ & Herr).
  destruct (Herr body) as [Hc Hs].
  split; [by apply Hc | exact Hs].
Defined.

Lemma saveAfterPull_each_write_witness :
  let quota :=
    {| put_fault := λ key, if decide (key = "meta:baseVersion")
                           then Some "QuotaExceededError" else None;
       get_fault := λ _, None; clear_fault := None |} in
  let r := saveAfterPull quota (snapshot_of_pull Samples.pull_1000) empty_db in
  ¬ puts_land quota ["snapshot:origin"; "snapshot:current";
                     "meta:lastPullAt"; "meta:baseVersion"] ∧
  r.1 ≠ Returns () ∧
  snapshots r.2 !! "snapshot:origin"
  = Some (snapshot_of_pull Samples.pull_1000) ∧
  meta r.2 !! "meta:baseVersion" = None.
Proof.
  intros quota r.
  destruct (saveAfterPull_each_write quota
              (snapshot_of_pull Samples.pull_1000) empty_db)
    as (Ho & _ & _ & Hb & Hiff).
  assert (H : ¬ puts_land quota ["snapshot:origin"; "snapshot:current";
                                 "meta:lastPullAt"; "meta:baseVersion"]).
  { rewrite !puts_land_cons. intros (_ & _ & _ & Hq & _). discriminate Hq. }
  split; [exact H|].
  split; [intros Hr; by apply H, Hiff|].
  split; [exact Ho | exact Hb].
Defined.

Lemma saveAfterPush_each_write_witness :
  let quota :=
    {| put_fault := λ key, if decide (key = "snapshot:lastPush")
                           then Some "QuotaExceededError" else None;
       get_fault := λ _, None; clear_fault := None |} in
  let r := saveAfterPush quota (snapshot_of_pull Samples.pull_1000)
             "2026-01-24T08:00:00.000Z" 1006 empty_db in
  ¬ puts_land quota ["snapshot:lastPush"; "snapshot:current";
                     "meta:lastPushAt"; "meta:baseVersion"] ∧
  r.1 ≠ Returns () ∧
  snapshots r.2 !! "snapshot:lastPush" = None ∧
  meta r.2 !! "meta:baseVersion" = Some (MetaNumber 1006).
Proof.
  intros quota r.
  destruct (saveAfterPush_each_write quota
              (snapshot_of_pull Samples.pull_1000)
              "2026-01-24T08:00:00.000Z" 1006 empty_db)
    as (Hl & _ & _ & Hb & Hiff).
  assert (H : ¬ puts_land quota ["snapshot:lastPush"; "snapshot:current";
                                 "meta:lastPushAt"; "meta:baseVersion"]).
  { rewrite !puts_land_cons. intros (Hq & _). discriminate Hq. }
  split; [exact H|].
  split; [intros Hr; by apply H, Hiff|].
  split; [exact Hl | exact Hb].
Defined.

Lemma saveAfterPull_throws f snapshot db :
  ¬ puts_land f ["snapshot:origin"; "snapshot:current";
                 "meta:lastPullAt"; "meta:baseVersion"] →
  ∃ msg, (saveAfterPull f snapshot db).1 = Throws (StorageFailure msg).
Proof.
  intros Hf.
  destruct (saveAfterPull f snapshot db).1 as [[]|e] eqn:Hc.
  { by apply saveAfterPull_returns_iff in Hc. }
  revert Hc. unfold saveAfterPull, saveSnapshot, saveMeta.
  destruct (put_fault f (snapshot_key snapshot_origin)),
           (put_fault f (snapshot_key snapshot_current)),
           (put_fault f (meta_key meta_lastPullAt)),
           (put_fault f (meta_key meta_baseVersion)); cbn;
    intros [= <-]; by eexists.
Qed.

(** A pull whose remote read succeeded but whose persistence failed is not
    rolled back: [pull] rethrows the storage failure and records its
    message, yet the rules, tags, version and pull time of the response
    are already installed in memory and the loading flag is cleared. *)
Theorem pull_storage_failure (pullRes : PullResponse) (f : Faults)
    (st : DataState) (db : IDB) :
  ¬ puts_land f ["snapshot:origin"; "snapshot:current";
                 "meta:lastPullAt"; "meta:baseVersion"] →
  let r := pull (Resolved pullRes) f (st, db) in
  ∃ msg,
    r.1 = Throws (StorageFailure msg) ∧
    error r.2.1 = Some msg ∧
    isLoading r.2.1 = false ∧
    rules r.2.1 = items (pr_rules pullRes) ∧
    tags r.2.1 = pr_tags pullRes ∧
    baseVersion r.2.1 = Some (version pullRes) ∧
    lastPullAt r.2.1 = Some (pulledAt pullRes).
Proof.
  intros Hf r. subst r.
  destruct (saveAfterPull_throws f (snapshot_of_pull pullRes) db Hf)
    as [msg Hmsg].
  exists msg. rewrite pull_resolved_eq, Hmsg. by repeat split.
Qed.

Lemma pull_storage_failure_witness :
  let quota :=
    {| put_fault := λ _, Some "QuotaExceededError"; get_fault := λ _, None;
       clear_fault := None |} in
  let r := pull (Resolved Samples.pull_1000) quota
             (initialState Samples.clock, empty_db) in
  ¬ puts_land quota ["snapshot:origin"; "snapshot:current";
                     "meta:lastPullAt"; "meta:baseVersion"] ∧
  ∃ msg,
    r.1 = Throws (StorageFailure msg) ∧
    error r.2.1 = Some msg ∧
    baseVersion r.2.1 = Some 1000.
Proof.
  intros quota r.
  assert (H : ¬ puts_land quota ["snapshot:origin"; "snapshot:current";
                                 "meta:lastPullAt"; "meta:baseVersion"]).
  { rewrite !puts_land_cons. intros (Hq & _). discriminate Hq. }
  split; [exact H|].
  destruct (pull_storage_failure Samples.pull_1000 quota
              (initialState Samples.clock) empty_db H)
    as (msg & Hr & He & _ & _ & _ & Hv & _).
  exists msg. split; [exact Hr|]. split; [exact He | exact Hv].
Defined.

(** A push is adopted at the next start: after [saveAfterPush] whose
    writes landed, [hydrate] (the store being readable) installs the pushed
    rules and tags under the new version, with the push time as
    [lastPushAt]. *)
Theorem hydrate_after_push (f f_boot : Faults) (snapshot : LocalSnapshot)
    (pushedAt : string) (newVersion : Z) (st : DataState) (db : IDB) :
  puts_land f ["snapshot:lastPush"; "snapshot:current";
               "meta:lastPushAt"; "meta:baseVersion"] →
  get_fault f_boot "snapshot:current" = None →
  get_fault f_boot "meta:lastPushAt" = None →
  let db' := (saveAfterPush f snapshot pushedAt newVersion db).2 in
  let st' := (hydrate f_boot (st, db')).2.1 in
  rules st' = snap_rules snapshot ∧
  tags st' = snap_tags snapshot ∧
  baseVersion st' = Some newVersion ∧
  lastPushAt st' = Some pushedAt ∧
  isHydrated st' = true.
Proof.
  rewrite !puts_land_cons. intros (Hl & Hc & Hp & Hb & _) Hgc Hgp.
  unfold saveAfterPush, saveSnapshot, saveMeta; cbn.
  rewrite Hl, Hc, Hp, Hb; cbn.
  unfold hydrate, loadSnapshot, loadMeta; cbn. rewrite Hgc, Hgp; cbn.
  by simplify_map_eq.
Qed.

Lemma hydrate_after_push_witness :
  puts_land no_faults ["snapshot:lastPush"; "snapshot:current";
                       "meta:lastPushAt"; "meta:baseVersion"] ∧
  get_fault no_faults "snapshot:current" = None ∧
  get_fault no_faults "meta:lastPushAt" = None ∧
  baseVersion
    (hydrate no_faults
       (initialState Samples.clock,
        (saveAfterPush no_faults (snapshot_of_pull Samples.pull_1000)
           "2026-01-24T08:00:00.000Z" 1006 empty_db).2)).2.1
  = Some 1006.
Proof.
  split; [apply puts_land_no_faults|].
  split; [reflexivity|]. split; [reflexivity|].
  destruct (hydrate_after_push no_faults no_faults
              (snapshot_of_pull Samples.pull_1000)
              "2026-01-24T08:00:00.000Z" 1006 (initialState Samples.clock)
              empty_db (puts_land_no_faults _) eq_refl eq_refl)
    as (_ & _ & Hv & _).
  exact Hv.
Defined.
